(** * UnLanedet: flatten / unflatten schemas, tracing adapter, analysis CLI

    A shallow embedding of [unlanedet/utils/flatten.py], of the task loop of
    [tools/analysis.py] and of the [model] declaration of
    [config/gsenet/resnet18_tusimple.py], with the properties the
    specification states about them. *)

From Stdlib Require Import String Ascii ZArith Lia Bool Arith PeanoNat.
From Stdlib Require Import OrderedTypeEx Permutation Sorted List.
Import ListNotations.
Open Scope list_scope.

Set Implicit Arguments.
Set Warnings "-register-all".

(** ** Python exceptions and fallible computations *)

Inductive pyexc : Type :=
| KeyError
| ValueError
| AssertionError
| IndexError
| NotImplementedError
| TypeError
| SystemExit.

Inductive result (A : Type) : Type :=
| Ok (a : A)
| Raise (e : pyexc).

Arguments Ok {A} a.
Arguments Raise {A} e.

Definition bind {A B : Type} (c : result A) (k : A -> result B) : result B :=
  match c with
  | Ok a => k a
  | Raise e => Raise e
  end.

Notation "x <- c ;; k" := (bind c (fun x => k))
  (at level 61, c at next level, right associativity).
Notation "' p <- c ;; k" := (bind c (fun p => k))
  (at level 61, p pattern, c at next level, right associativity).

(** A list comprehension whose body may raise: the elements are evaluated
    left to right and the first exception escapes. *)
Fixpoint collect {A : Type} (rs : list (result A)) : result (list A) :=
  match rs with
  | [] => Ok []
  | r :: rs' => a <- r ;; l <- collect rs' ;; Ok (a :: l)
  end.

(** ** Python values *)

(** Values that are neither [list], [tuple] nor a mapping.  Tensors and other
    opaque objects are told apart by their identity. *)
Inductive atom : Type :=
| AStr (s : string)
| ABytes (b : list Byte.byte)
| AInt (z : Z)
| ANone
| ATensor (id : nat)
| AObject (id : nat).

(** Mapping keys: [str] keys and keys of another hashable type. *)
Inductive pykey : Type :=
| KStr (s : string)
| KInt (z : Z).

(** A mapping is kept as its entries in insertion order. *)
Inductive pyobj : Type :=
| PAtom (a : atom)
| PList (items : list pyobj)
| PTuple (items : list pyobj)
| PDict (entries : list (pykey * pyobj)).

Definition atom_eq_dec (x y : atom) : {x = y} + {x <> y}.
Proof.
  decide equality;
    first [ apply string_dec | apply (list_eq_dec Byte.byte_eq_dec)
          | apply Z.eq_dec | apply Nat.eq_dec ].
Defined.

Definition atom_eqb (x y : atom) : bool :=
  if atom_eq_dec x y then true else false.

Definition pykey_eq_dec (x y : pykey) : {x = y} + {x <> y}.
Proof.
  decide equality; first [ apply string_dec | apply Z.eq_dec ].
Defined.

Definition key_eqb (x y : pykey) : bool :=
  if pykey_eq_dec x y then true else false.

(** [isinstance(k, str)] on a key. *)
Definition is_str_key (k : pykey) : bool :=
  match k with
  | KStr _ => true
  | KInt _ => false
  end.

(** The [str] keys of a mapping, in insertion order. *)
Fixpoint key_strs {X : Type} (entries : list (pykey * X)) : list string :=
  match entries with
  | [] => []
  | (KStr s, _) :: rest => s :: key_strs rest
  | (KInt _, _) :: rest => key_strs rest
  end.

(** [obj[k]]: a missing key raises [KeyError]. *)
Fixpoint getitem {X : Type} (entries : list (pykey * X)) (k : pykey) : result X :=
  match entries with
  | [] => Raise KeyError
  | (k', v) :: rest => if key_eqb k' k then Ok v else getitem rest k
  end.

(** [dict.get]-like lookup used by the comparison of mappings. *)
Fixpoint lookup {X : Type} (entries : list (pykey * X)) (k : pykey) : option X :=
  match entries with
  | [] => None
  | (k', v) :: rest => if key_eqb k' k then Some v else lookup rest k
  end.

(** [d[k] = v] on the entries of a [dict]: an existing key keeps its place. *)
Fixpoint dict_set {X : Type} (entries : list (pykey * X)) (k : pykey) (v : X)
  : list (pykey * X) :=
  match entries with
  | [] => [(k, v)]
  | (k', v') :: rest =>
      if key_eqb k' k then (k', v) :: rest else (k', v') :: dict_set rest k v
  end.

(** [dict(pairs)]. *)
Definition dict_of_pairs {X : Type} (pairs : list (pykey * X)) : list (pykey * X) :=
  fold_left (fun d kv => dict_set d (fst kv) (snd kv)) pairs [].

(** ** [sorted] on strings *)

Fixpoint insert_sorted (x : string) (l : list string) : list string :=
  match l with
  | [] => [x]
  | y :: l' => if String.leb x y then x :: y :: l' else y :: insert_sorted x l'
  end.

(** [sorted(keys)]: a stable sort by the lexicographic order of strings. *)
Definition sorted (l : list string) : list string :=
  fold_right insert_sorted [] l.

(** The order [sorted] sorts by. *)
Definition str_le (x y : string) : Prop := String.leb x y = true.

(** ** Schemas *)

Inductive Schema : Type :=
| IdentitySchema
| ListSchema (schemas : list Schema) (sizes : list nat)
| TupleSchema (schemas : list Schema) (sizes : list nat)
| DictSchema (schemas : list Schema) (sizes : list nat) (keys : list string).

(** The fields [schemas] and [sizes] of a [ListSchema] and of its subclasses. *)
Definition schemas_of (s : Schema) : list Schema :=
  match s with
  | IdentitySchema => []
  | ListSchema schemas _ => schemas
  | TupleSchema schemas _ => schemas
  | DictSchema schemas _ _ => schemas
  end.

Definition sizes_of (s : Schema) : list nat :=
  match s with
  | IdentitySchema => []
  | ListSchema _ sizes => sizes
  | TupleSchema _ sizes => sizes
  | DictSchema _ sizes _ => sizes
  end.

Definition sum (l : list nat) : nat := fold_left Nat.add l 0.

(** [values[b:e]] for [0 <= b], [0 <= e]. *)
Definition slice {A : Type} (values : list A) (b e : nat) : list A :=
  firstn (e - b) (skipn b values).

(** [Schema._concat]. *)
Definition _concat (values : list (list pyobj)) : list pyobj * list nat :=
  fold_left (fun acc v => (fst acc ++ v, snd acc ++ [length v])) values ([], []).

(** [Schema._split]. *)
Definition _split (values : list pyobj) (sizes : list nat)
  : result (list (list pyobj)) :=
  if negb (length sizes =? 0) && negb (length values =? sum sizes)
  then Raise AssertionError
  else Ok (map (fun k => slice values (sum (firstn k sizes))
                                      (sum (firstn (k + 1) sizes)))
               (seq 0 (length sizes))).

(** [IdentitySchema.flatten]. *)
Definition IdentitySchema_flatten (obj : pyobj) : result (list pyobj * Schema) :=
  Ok ([obj], IdentitySchema).

(** [ListSchema.flatten], given [res = [flatten_to_tuple(k) for k in obj]]. *)
Definition ListSchema_flatten (cls : list Schema -> list nat -> Schema)
    (res : list (result (list pyobj * Schema))) : result (list pyobj * Schema) :=
  res <- collect res ;;
  let '(values, sizes) := _concat (map fst res) in
  Ok (values, cls (map snd res) sizes).

Section GetItemThen.
Variables (X R : Type) (f : X -> result R).

(** [f(obj[k])], the lookup and the use of the value in one pass over the
    entries. *)
Fixpoint getitem_then (entries : list (pykey * X)) (k : pykey) : result R :=
  match entries with
  | [] => Raise KeyError
  | (k', v) :: rest => if key_eqb k' k then f v else getitem_then rest k
  end.
End GetItemThen.

(** [DictSchema.flatten], with [flatten_to_tuple] for the values. *)
Definition DictSchema_flatten (flatten_to_tuple : pyobj -> result (list pyobj * Schema))
    (obj : list (pykey * pyobj)) : result (list pyobj * Schema) :=
  if existsb (fun k => negb (is_str_key k)) (map fst obj)
  then Raise KeyError
  else
    let keys := sorted (key_strs obj) in
    '(ret, schema) <-
      ListSchema_flatten ListSchema
        (map (fun k => getitem_then flatten_to_tuple obj (KStr k)) keys) ;;
    Ok (ret, DictSchema (schemas_of schema) (sizes_of schema) keys).

(** [flatten_to_tuple]: [str] and [bytes] are tested first and, like every
    object that is neither a list, a tuple nor a mapping, go to
    [IdentitySchema]. *)
Fixpoint flatten_to_tuple (obj : pyobj) : result (list pyobj * Schema) :=
  match obj with
  | PAtom _ => IdentitySchema_flatten obj
  | PList items => ListSchema_flatten ListSchema (map flatten_to_tuple items)
  | PTuple items => ListSchema_flatten TupleSchema (map flatten_to_tuple items)
  | PDict entries => DictSchema_flatten flatten_to_tuple entries
  end.

(** The dispatch of [flatten_to_tuple]: the table [schemas] is read in order
    and the first class the object is an instance of gives the schema class;
    the [else] of the loop gives [IdentitySchema]. *)
Inductive klass : Type :=
| str_or_bytes
| list_class
| tuple_class
| Mapping_class.

Inductive schema_class : Type :=
| IdentitySchema_class
| ListSchema_class
| TupleSchema_class
| DictSchema_class.

Definition isinstance (obj : pyobj) (k : klass) : bool :=
  match k, obj with
  | str_or_bytes, PAtom (AStr _) => true
  | str_or_bytes, PAtom (ABytes _) => true
  | list_class, PList _ => true
  | tuple_class, PTuple _ => true
  | Mapping_class, PDict _ => true
  | _, _ => false
  end.

Definition schemas_table : list (klass * schema_class) :=
  [(str_or_bytes, IdentitySchema_class); (list_class, ListSchema_class);
   (tuple_class, TupleSchema_class); (Mapping_class, DictSchema_class)].

Definition select_schema (obj : pyobj) : schema_class :=
  match find (fun row => isinstance obj (fst row)) schemas_table with
  | Some row => snd row
  | None => IdentitySchema_class
  end.

(** [F.flatten(obj)] for the class [F] selected for [obj]. *)
Definition flatten_with (F : schema_class) (obj : pyobj)
  : result (list pyobj * Schema) :=
  match F, obj with
  | IdentitySchema_class, _ => IdentitySchema_flatten obj
  | ListSchema_class, PList items =>
      ListSchema_flatten ListSchema (map flatten_to_tuple items)
  | TupleSchema_class, PTuple items =>
      ListSchema_flatten TupleSchema (map flatten_to_tuple items)
  | DictSchema_class, PDict entries => DictSchema_flatten flatten_to_tuple entries
  | _, _ => Raise TypeError
  end.

(** ** Rebuilding: the [__call__] methods *)

Section CallZip.
Variable call : Schema -> list pyobj -> result pyobj.

(** [[m(v) for m, v in zip(schemas, values)]]. *)
Fixpoint call_zip (schemas : list Schema) (values : list (list pyobj))
  : list (result pyobj) :=
  match schemas, values with
  | m :: ms, v :: vs => call m v :: call_zip ms vs
  | _, _ => []
  end.

(** [ListSchema.__call__]. *)
Definition ListSchema_call (schemas : list Schema) (sizes : list nat)
    (values : list pyobj) : result (list pyobj) :=
  values <- _split values sizes ;;
  if negb (length values =? length schemas)
  then Raise ValueError
  else collect (call_zip schemas values).
End CallZip.

(** [schema(values)] for the four schema classes. *)
Fixpoint Schema_call (s : Schema) (values : list pyobj) : result pyobj :=
  match s with
  | IdentitySchema =>
      match values with
      | [] => Raise IndexError
      | v :: _ => Ok v
      end
  | ListSchema schemas sizes =>
      l <- ListSchema_call Schema_call schemas sizes values ;; Ok (PList l)
  | TupleSchema schemas sizes =>
      l <- ListSchema_call Schema_call schemas sizes values ;; Ok (PTuple l)
  | DictSchema schemas sizes keys =>
      l <- ListSchema_call Schema_call schemas sizes values ;;
      Ok (PDict (dict_of_pairs (combine (map KStr keys) l)))
  end.

(** ** Equality of Python values ([==]) *)

Section ContainerEq.
Variable eqb : pyobj -> pyobj -> bool.

Fixpoint list_eqb (l1 l2 : list pyobj) : bool :=
  match l1, l2 with
  | [], [] => true
  | x :: l1', y :: l2' => eqb x y && list_eqb l1' l2'
  | _, _ => false
  end.

(** Every key of [d1] is a key of [d2], with an equal value. *)
Fixpoint dict_sub (d1 d2 : list (pykey * pyobj)) : bool :=
  match d1 with
  | [] => true
  | (k, v) :: rest =>
      match lookup d2 k with
      | Some v' => eqb v v'
      | None => false
      end && dict_sub rest d2
  end.
End ContainerEq.

(** [a == b]: lists and tuples element by element, mappings by their keys
    whatever the insertion order, a list never equal to a tuple. *)
Fixpoint py_eq (a b : pyobj) : bool :=
  match a, b with
  | PAtom x, PAtom y => atom_eqb x y
  | PList l1, PList l2 => list_eqb py_eq l1 l2
  | PTuple l1, PTuple l2 => list_eqb py_eq l1 l2
  | PDict d1, PDict d2 => (length d1 =? length d2) && dict_sub py_eq d1 d2
  | _, _ => false
  end.

(** ** Shapes of objects *)

Fixpoint keys_unique (ks : list pykey) : bool :=
  match ks with
  | [] => true
  | k :: rest => negb (existsb (key_eqb k) rest) && keys_unique rest
  end.

(** The entries of every mapping have distinct keys, as a [dict] has. *)
Fixpoint wf (obj : pyobj) : bool :=
  match obj with
  | PAtom _ => true
  | PList items => forallb wf items
  | PTuple items => forallb wf items
  | PDict entries =>
      keys_unique (map fst entries) && forallb (fun kv => wf (snd kv)) entries
  end.

(** Every mapping in the object has only [str] keys. *)
Fixpoint str_keyed (obj : pyobj) : bool :=
  match obj with
  | PAtom _ => true
  | PList items => forallb str_keyed items
  | PTuple items => forallb str_keyed items
  | PDict entries =>
      forallb (fun kv => is_str_key (fst kv)) entries
      && forallb (fun kv => str_keyed (snd kv)) entries
  end.

(** Some mapping in the object has a key that is not a [str]. *)
Fixpoint has_nonstr_key (obj : pyobj) : bool :=
  match obj with
  | PAtom _ => false
  | PList items => existsb has_nonstr_key items
  | PTuple items => existsb has_nonstr_key items
  | PDict entries =>
      existsb (fun kv => negb (is_str_key (fst kv))) entries
      || existsb (fun kv => has_nonstr_key (snd kv)) entries
  end.

(** Neither a list, a tuple nor a mapping. *)
Definition is_leaf (obj : pyobj) : bool :=
  match obj with
  | PAtom _ => true
  | _ => false
  end.

(** ** The leaves of an object, as the specification words them *)

Section Entries.
Variables (X Y : Type) (f : X -> Y).

(** The entries with a [str] key, [f] applied to the values. *)
Fixpoint str_entries (entries : list (pykey * X)) : list (string * Y) :=
  match entries with
  | [] => []
  | (KStr s, v) :: rest => (s, f v) :: str_entries rest
  | (KInt _, _) :: rest => str_entries rest
  end.
End Entries.

Fixpoint insert_entry {Y : Type} (e : string * Y) (l : list (string * Y))
  : list (string * Y) :=
  match l with
  | [] => [e]
  | e' :: l' =>
      if String.leb (fst e) (fst e') then e :: e' :: l' else e' :: insert_entry e l'
  end.

(** Entries in sorted-key order. *)
Definition sort_entries {Y : Type} (l : list (string * Y)) : list (string * Y) :=
  fold_right insert_entry [] l.

(** Leaf values in order: list and tuple elements in element order, mapping
    values in sorted-key order. *)
Fixpoint leaves (obj : pyobj) : list pyobj :=
  match obj with
  | PAtom _ => [obj]
  | PList items => concat (map leaves items)
  | PTuple items => concat (map leaves items)
  | PDict entries => concat (map snd (sort_entries (str_entries leaves entries)))
  end.

(** The elements of a container: list and tuple items, mapping values in
    sorted-key order. *)
Definition elements (obj : pyobj) : list pyobj :=
  match obj with
  | PAtom _ => []
  | PList items => items
  | PTuple items => items
  | PDict entries => map snd (sort_entries (str_entries (fun v => v) entries))
  end.

(** ** Sizes recorded in a schema *)

(** The number of flat values a schema stands for. *)
Definition width (s : Schema) : nat :=
  match s with
  | IdentitySchema => 1
  | _ => sum (sizes_of s)
  end.

Definition nat_list_eqb (l1 l2 : list nat) : bool :=
  if list_eq_dec Nat.eq_dec l1 l2 then true else false.

(** [len(schemas) == len(sizes)] and every size is the flat length of its
    schema, in the schema and in every schema nested in it. *)
Fixpoint schema_inv (s : Schema) : bool :=
  match s with
  | IdentitySchema => true
  | ListSchema schemas sizes =>
      (length schemas =? length sizes) && nat_list_eqb (map width schemas) sizes
      && forallb schema_inv schemas
  | TupleSchema schemas sizes =>
      (length schemas =? length sizes) && nat_list_eqb (map width schemas) sizes
      && forallb schema_inv schemas
  | DictSchema schemas sizes _ =>
      (length schemas =? length sizes) && nat_list_eqb (map width schemas) sizes
      && forallb schema_inv schemas
  end.

(** ** Modules and their training flag *)

(** An [nn.Module] with its submodules; [DataParallel] stands for
    [nn.DataParallel] and [DistributedDataParallel], whose [module] attribute
    is the wrapped model. *)
Inductive nnModule : Type :=
| Plain (training : bool) (children : list nnModule)
| DataParallel (training : bool) (module : nnModule).

Definition training (m : nnModule) : bool :=
  match m with
  | Plain t _ => t
  | DataParallel t _ => t
  end.

Definition is_parallel (m : nnModule) : bool :=
  match m with
  | Plain _ _ => false
  | DataParallel _ _ => true
  end.

(** [m.train(mode)]: the flag of the module and of every submodule. *)
Fixpoint train (mode : bool) (m : nnModule) : nnModule :=
  match m with
  | Plain _ children => Plain mode (map (train mode) children)
  | DataParallel _ inner => DataParallel mode (train mode inner)
  end.

(** [m.eval()]. *)
Definition eval (m : nnModule) : nnModule := train false m.

(** A variable that holds a module denotes an object inside the caller's
    model: the model itself after [0] steps, its [.module] after one, and so
    on.  Assignments through the variable are written back in place. *)
Fixpoint deref (steps : nat) (root : nnModule) : nnModule :=
  match steps, root with
  | S n, DataParallel _ inner => deref n inner
  | _, _ => root
  end.

Fixpoint update_at (steps : nat) (f : nnModule -> nnModule) (root : nnModule)
  : nnModule :=
  match steps, root with
  | S n, DataParallel t inner => DataParallel t (update_at n f inner)
  | _, _ => f root
  end.

(** [model = model.module] when the module is a parallel wrapper. *)
Definition unwrap (steps : nat) (root : nnModule) : nat :=
  if is_parallel (deref steps root) then S steps else steps.

(** ** [TracingAdapter] *)

(** [isinstance(x, torch.Tensor)]. *)
Definition is_tensor (x : pyobj) : bool :=
  match x with
  | PAtom (ATensor _) => true
  | _ => false
  end.

Record TracingAdapter : Type := {
  adapter_training : bool;
  model : nat;
  inputs : pyobj;
  allow_non_tensor : bool;
  flattened_inputs : list pyobj;
  inputs_schema : option Schema;
  outputs_schema : option Schema
}.

(** [if not isinstance(inputs, tuple): inputs = (inputs,)]. *)
Definition as_tuple (inputs0 : pyobj) : pyobj :=
  match inputs0 with
  | PTuple _ => inputs0
  | _ => PTuple [inputs0]
  end.

(** The loop that raises at the first input that is not a tensor. *)
Fixpoint check_tensors (xs : list pyobj) : result unit :=
  match xs with
  | [] => Ok tt
  | x :: rest => if negb (is_tensor x) then Raise ValueError else check_tensors rest
  end.

(** [TracingAdapter.__init__(model, inputs, allow_non_tensor=...)]; the model
    is the object [steps] below the caller's [root]. *)
Definition TracingAdapter_init (root : nnModule) (steps : nat) (inputs0 : pyobj)
    (allow : bool) : result TracingAdapter :=
  let steps := unwrap steps root in
  let inputs1 := as_tuple inputs0 in
  '(flat, schema) <- flatten_to_tuple inputs1 ;;
  let self := {| adapter_training := true; model := steps; inputs := inputs1;
                 allow_non_tensor := allow; flattened_inputs := flat;
                 inputs_schema := Some schema; outputs_schema := None |} in
  if forallb is_tensor flat then Ok self
  else if allow then
    Ok {| adapter_training := true; model := steps; inputs := inputs1;
          allow_non_tensor := allow; flattened_inputs := filter is_tensor flat;
          inputs_schema := None; outputs_schema := None |}
  else
    _ <- check_tensors flat ;; Ok self.

(** ** Operator counting *)

Section Counting.
(** The counters of fvcore, and its analyses: they are given the adapter
    (its own flag and the model it holds) and the flat inputs, run the
    model, and may raise. *)
Variable Counts : Type.
Variable giga : Counts -> Counts.
Variable by_operator :
  bool * nnModule -> list pyobj -> result Counts * (bool * nnModule).
Variable flop_count :
  bool * nnModule -> list pyobj -> result Counts * (bool * nnModule).
Variable activation_count :
  bool * nnModule -> list pyobj -> result Counts * (bool * nnModule).

(** [flop_count_operators(model, inputs)]: the outcome and the caller's
    model as the call leaves it. *)
Definition flop_count_operators (model0 : nnModule) (inputs0 : pyobj)
  : result Counts * nnModule :=
  let old_train := training model0 in
  let m1 := eval model0 in
  match TracingAdapter_init m1 0 inputs0 true with
  | Raise e => (Raise e, m1)
  | Ok wrapper =>
      let '(ret, (_, inner)) :=
        by_operator (adapter_training wrapper, deref (model wrapper) m1)
                    (flattened_inputs wrapper) in
      let m2 := update_at (model wrapper) (fun _ => inner) m1 in
      match ret with
      | Raise e => (Raise e, m2)
      | Ok ret => (Ok (giga ret), train old_train m2)
      end
  end.

Definition FLOPS_MODE : string := "flops".
Definition ACTIVATIONS_MODE : string := "activations".

(** [inputs[0]["image"]] on a list of mappings. *)
Definition image_of (inputs0 : list pyobj) : result pyobj :=
  match inputs0 with
  | PDict entries :: _ => getitem entries (KStr "image")
  | _ :: _ => Raise TypeError
  | [] => Raise IndexError
  end.

(** [_wrapper_count_operators(model, inputs, mode)]. *)
Definition _wrapper_count_operators (model0 : nnModule) (inputs0 : list pyobj)
    (mode : string) : result Counts * nnModule :=
  if negb (length inputs0 =? 1) then (Raise AssertionError, model0)
  else
    match image_of inputs0 with
    | Raise e => (Raise e, model0)
    | Ok tensor_input =>
        let inputs1 := PList [PDict [(KStr "image", tensor_input)]] in
        let old_train := training model0 in
        let steps := unwrap 0 model0 in
        match TracingAdapter_init model0 steps inputs1 false with
        | Raise e => (Raise e, model0)
        | Ok wrapper =>
            (* wrapper.eval() *)
            let m1 := update_at (model wrapper) eval model0 in
            let count :=
              if String.eqb mode FLOPS_MODE then Some flop_count
              else if String.eqb mode ACTIVATIONS_MODE then Some activation_count
              else None in
            match count with
            | None => (Raise NotImplementedError, m1)
            | Some count =>
                let '(ret, (_, inner)) :=
                  count (false, deref (model wrapper) m1) [tensor_input] in
                let m2 := update_at (model wrapper) (fun _ => inner) m1 in
                match ret with
                | Raise e => (Raise e, m2)
                | Ok ret => (Ok ret, update_at steps (train old_train) m2)
                end
            end
        end
    end.

(** [activation_count_operators(model, inputs)]. *)
Definition activation_count_operators (model0 : nnModule) (inputs0 : list pyobj)
  : result Counts * nnModule :=
  _wrapper_count_operators model0 inputs0 ACTIVATIONS_MODE.
End Counting.

(** ** The task loop of [tools/analysis.py] *)

Module Analysis.

(** The four functions the script dispatches to. *)
Inductive task_fn : Type :=
| do_flop
| do_activation
| do_parameter
| do_structure.

(** [choices] of the [--tasks] argument. *)
Definition choices : list string :=
  ["flop"; "activation"; "parameter"; "structure"]%string.

(** The dictionary literal of the loop body. *)
Definition table : list (string * task_fn) :=
  [("flop", do_flop); ("activation", do_activation);
   ("parameter", do_parameter); ("structure", do_structure)]%string.

(** [table[task]]. *)
Fixpoint table_get (t : list (string * task_fn)) (task : string) : result task_fn :=
  match t with
  | [] => Raise KeyError
  | (name, f) :: rest => if String.eqb name task then Ok f else table_get rest task
  end.

(** [--tasks] is required, takes one name or more ([nargs="+"]), each among
    the choices; otherwise the parser exits. *)
Definition parse_tasks (given : option (list string)) : result (list string) :=
  match given with
  | None => Raise SystemExit
  | Some [] => Raise SystemExit
  | Some names =>
      if forallb (fun n => existsb (String.eqb n) choices) names
      then Ok names
      else Raise SystemExit
  end.

(** The parsed arguments the script reads. *)
Record Args : Type := {
  config_file : string;
  opts : list string;
  ckpt : option string;
  tasks : option (list string);
  eval_only : bool;
  num_gpus : Z
}.

Section Main.
(** The configuration object, the state outside the script, the loading
    of the configuration and the bodies of the four functions. *)
Variables (Cfg World : Type).
Variable setup : Args -> World -> result Cfg * World.
Variable set_init_checkpoint : Cfg -> option string -> Cfg.
Variable body : task_fn -> Cfg -> World -> result unit * World.

(** A call of one of the four functions, with its argument. *)
Inductive event : Type :=
| Invoke (f : task_fn) (cfg : Cfg).

Definition state : Type := (World * list event)%type.

(** [f(cfg)]: the call is recorded, then the body runs. *)
Definition invoke (f : task_fn) (cfg : Cfg) (st : state) : result unit * state :=
  let '(r, w) := body f cfg (fst st) in
  (r, (w, snd st ++ [Invoke f cfg])).

(** [for task in args.tasks: {...}[task](cfg)]. *)
Fixpoint task_loop (names : list string) (cfg : Cfg) (st : state)
  : result unit * state :=
  match names with
  | [] => (Ok tt, st)
  | task :: rest =>
      match table_get table task with
      | Raise e => (Raise e, st)
      | Ok f =>
          match invoke f cfg st with
          | (Ok _, st') => task_loop rest cfg st'
          | (Raise e, st') => (Raise e, st')
          end
      end
  end.

(** The [__main__] block, after the arguments other than [--tasks] are
    parsed. *)
Definition main (args : Args) (w : World) : result unit * state :=
  match parse_tasks (tasks args) with
  | Raise e => (Raise e, (w, []))
  | Ok names =>
      if eval_only args then (Raise AssertionError, (w, []))
      else if negb (num_gpus args =? 1)%Z then (Raise AssertionError, (w, []))
      else
        match setup args w with
        | (Raise e, w') => (Raise e, (w', []))
        | (Ok cfg, w') =>
            let cfg := set_init_checkpoint cfg (ckpt args) in
            task_loop names cfg (w', [])
        end
  end.

(** The function the specification pairs with each task name. *)
Definition named_fn (task : string) : option task_fn :=
  if String.eqb task "flop" then Some do_flop
  else if String.eqb task "activation" then Some do_activation
  else if String.eqb task "parameter" then Some do_parameter
  else if String.eqb task "structure" then Some do_structure
  else None.
End Main.

End Analysis.

(** ** The model declared in [config/gsenet/resnet18_tusimple.py] *)

Module Config.

(** Configuration values: [L(target)(name=value, ...)] is a lazy call. *)
Inductive cfgval : Type :=
| CStr (s : string)
| CInt (z : Z)
| CBool (b : bool)
| CList (l : list cfgval)
| CRef (name : string)
| LazyCall (target : string) (kwargs : list (string * cfgval)).

Definition model : cfgval :=
  LazyCall "GSENet"
    [("backbone",
      LazyCall "ResNetWrapper"
        [("resnet", CStr "resnet18");
         ("pretrained", CBool true);
         ("replace_stride_with_dilation",
          CList [CBool false; CBool false; CBool false]);
         ("out_conv", CBool false)]);
     ("neck",
      LazyCall "FPN"
        [("in_channels", CList [CInt 128; CInt 256; CInt 512]);
         ("out_channels", CInt 64);
         ("num_outs", CInt 3);
         ("attention", CBool false)]);
     ("head",
      LazyCall "GSEHead"
        [("num_priors", CInt 192);
         ("refine_layers", CInt 3);
         ("fc_hidden_dim", CInt 64);
         ("sample_points", CInt 36);
         ("cfg", CRef "param_config")])]%string.

(** The keyword arguments of a lazy call: name and, for an argument that is
    a lazy call itself, its target. *)
Definition stages (c : cfgval) : list (string * option string) :=
  match c with
  | LazyCall _ kwargs =>
      map (fun kv =>
             (fst kv,
              match snd kv with
              | LazyCall target _ => Some target
              | _ => None
              end)) kwargs
  | _ => []
  end.

End Config.

(** ** [TracingAdapter.forward] and the wrapper of a traced model *)

Section SchemaEq.
Variable eqb : Schema -> Schema -> bool.

Fixpoint schemas_eqb (l1 l2 : list Schema) : bool :=
  match l1, l2 with
  | [], [] => true
  | x :: l1', y :: l2' => eqb x y && schemas_eqb l1' l2'
  | _, _ => false
  end.
End SchemaEq.

Definition keys_eqb (k1 k2 : list string) : bool :=
  if list_eq_dec string_dec k1 k2 then true else false.

(** [a == b] on schemas: the equality of dataclasses, same class and equal
    fields. *)
Fixpoint Schema_eqb (a b : Schema) : bool :=
  match a, b with
  | IdentitySchema, IdentitySchema => true
  | ListSchema m1 n1, ListSchema m2 n2 =>
      schemas_eqb Schema_eqb m1 m2 && nat_list_eqb n1 n2
  | TupleSchema m1 n1, TupleSchema m2 n2 =>
      schemas_eqb Schema_eqb m1 m2 && nat_list_eqb n1 n2
  | DictSchema m1 n1 k1, DictSchema m2 n2 k2 =>
      schemas_eqb Schema_eqb m1 m2 && nat_list_eqb n1 n2 && keys_eqb k1 k2
  | _, _ => false
  end.

(** [self.outputs_schema = v]. *)
Definition set_outputs_schema (self : TracingAdapter) (v : option Schema)
  : TracingAdapter :=
  {| adapter_training := adapter_training self; model := model self;
     inputs := inputs self; allow_non_tensor := allow_non_tensor self;
     flattened_inputs := flattened_inputs self;
     inputs_schema := inputs_schema self; outputs_schema := v |}.

Section Forward.
(** [inference_func(self.model, *inputs_orig_format)], as a function of the
    tuple of arguments, and [x is y]. *)
Variable call_model : pyobj -> result pyobj.
Variable py_is : pyobj -> pyobj -> bool.

(** The first half of [forward]: the arguments of the model, rebuilt from
    [args] or, without a schema, the original inputs when [args] are the
    recorded flat inputs themselves. *)
Definition forward_inputs (self : TracingAdapter) (args : list pyobj)
  : result pyobj :=
  match inputs_schema self with
  | Some schema => Schema_call schema args
  | None =>
      if negb (length args =? length (flattened_inputs self))
         || existsb (fun xy => negb (py_is (fst xy) (snd xy)))
                    (combine args (flattened_inputs self))
      then Raise ValueError
      else Ok (inputs self)
  end.

(** The second half of [forward]: the outputs are flattened, and the schema
    is recorded or compared with the recorded one. *)
Definition forward_outputs (self : TracingAdapter) (outputs : pyobj)
  : result (list pyobj) * TracingAdapter :=
  match flatten_to_tuple outputs with
  | Raise e => (Raise e, self)
  | Ok (flattened_outputs, schema) =>
      let flattened_output_tensors := filter is_tensor flattened_outputs in
      if length flattened_output_tensors <? length flattened_outputs then
        if allow_non_tensor self
        then (Ok flattened_output_tensors, set_outputs_schema self None)
        else (Raise ValueError, self)
      else
        match outputs_schema self with
        | None => (Ok flattened_outputs, set_outputs_schema self (Some schema))
        | Some recorded =>
            if Schema_eqb recorded schema
            then (Ok flattened_outputs, self)
            else (Raise AssertionError, self)
        end
  end.

(** [TracingAdapter.forward] on the tuple [args]: the flat outputs and the adapter as the
    call leaves it. *)
Definition TracingAdapter_forward (self : TracingAdapter) (args : list pyobj)
  : result (list pyobj) * TracingAdapter :=
  match forward_inputs self args with
  | Raise e => (Raise e, self)
  | Ok inputs_orig_format =>
      match call_model inputs_orig_format with
      | Raise e => (Raise e, self)
      | Ok outputs => forward_outputs self outputs
      end
  end.
End Forward.

(** The function returned by [_create_wrapper(traced_model)], applied to
    [args]; calling a schema that is [None] is a [TypeError]. *)
Definition wrapper_forward (traced_model : list pyobj -> result (list pyobj))
    (self : TracingAdapter) (args : list pyobj) : result pyobj :=
  '(flat, _) <- flatten_to_tuple (PTuple args) ;;
  flattened_outputs <- traced_model flat ;;
  match outputs_schema self with
  | Some schema => Schema_call schema flattened_outputs
  | None => Raise TypeError
  end.

(** Every module of the tree has the flag [b]. *)
Fixpoint all_training (b : bool) (m : nnModule) : bool :=
  match m with
  | Plain t children => Bool.eqb t b && forallb (all_training b) children
  | DataParallel t inner => Bool.eqb t b && all_training b inner
  end.

(** ** The statistics of [do_flop] and [do_activation] *)

Module Stats.

(** What a run ends with besides a value: the two exceptions of the
    statistics themselves, or an exception of a call they make. *)
Inductive exc : Type :=
| ZeroDivisionError
| UnboundLocalError
| Propagated (e : pyexc).

Inductive outcome (A : Type) : Type :=
| Done (a : A)
| Fail (e : exc).

Arguments Done {A} a.
Arguments Fail {A} e.

Definition and_then {A B : Type} (c : outcome A) (k : A -> outcome B) : outcome B :=
  match c with
  | Done a => k a
  | Fail e => Fail e
  end.

Section Counters.
(** The numbers that are counted, with [0], [+], [> 0] and the division by a
    positive integer. *)
Variable Num : Type.
Variable zero : Num.
Variable add : Num -> Num -> Num.
Variable positive : Num -> bool.
Variable div : Num -> nat -> Num.
Variable giga : Num -> Num.

(** A [Counter], as its items in insertion order. *)
Definition Counter : Type := list (string * Num).

(** [c[k]]: a missing key counts for [0]. *)
Fixpoint get (c : Counter) (k : string) : Num :=
  match c with
  | [] => zero
  | (k', v) :: rest => if String.eqb k' k then v else get rest k
  end.

(** [c[k] = v]. *)
Fixpoint set (c : Counter) (k : string) (v : Num) : Counter :=
  match c with
  | [] => [(k, v)]
  | (k', v') :: rest =>
      if String.eqb k' k then (k', v) :: rest else (k', v') :: set rest k v
  end.

(** [Counter._keep_positive]. *)
Definition keep_positive (c : Counter) : Counter :=
  filter (fun kv => positive (snd kv)) c.

(** [self += other]: every count of [other] is added, then the counts that
    are not positive are dropped. *)
Definition iadd (self other : Counter) : Counter :=
  keep_positive
    (fold_left (fun acc kv => set acc (fst kv) (add (get acc (fst kv)) (snd kv)))
               other self).

(** [sum(count.values())]. *)
Definition total (count : Counter) : Num :=
  fold_left add (map snd count) zero.

Section Loops.
Variable Data : Type.
(** [activation_count_operators(model, data)], and for [do_flop] the
    operator counts and the total of [FlopCountAnalysis(model, data)]. *)
Variable count_of : Data -> result Counter.
Variable analyse : Data -> result (Counter * Num).

(** [zip(tqdm.trange(args.num_inputs), data_loader)]. *)
Definition numbered (num_inputs : Z) (data_loader : list Data) : list (nat * Data) :=
  combine (seq 0 (Z.to_nat num_inputs)) data_loader.

(** The inputs the loops go through. *)
Definition processed (num_inputs : Z) (data_loader : list Data) : list Data :=
  firstn (Z.to_nat num_inputs) data_loader.

(** The loop of [do_activation]; [idx] is unbound before the first turn. *)
Fixpoint activation_loop (pairs : list (nat * Data)) (idx : option nat)
    (counts : Counter) (total_activations : list Num)
  : outcome (option nat * Counter * list Num) :=
  match pairs with
  | [] => Done (idx, counts, total_activations)
  | (i, data) :: rest =>
      match count_of data with
      | Raise e => Fail (Propagated e)
      | Ok count =>
          activation_loop rest (Some i) (iadd counts count)
                          (total_activations ++ [total count])
      end
  end.

(** [[(k, v / idx) for k, v in counts.items()]]. *)
Fixpoint activation_report (idx : option nat) (counts : Counter)
  : outcome (list (string * Num)) :=
  match counts with
  | [] => Done []
  | (k, v) :: rest =>
      match idx with
      | None => Fail UnboundLocalError
      | Some 0 => Fail ZeroDivisionError
      | Some n =>
          and_then (activation_report idx rest) (fun r => Done ((k, div v n) :: r))
      end
  end.

(** [do_activation], from the loop on: the list that is logged and the
    totals handed to numpy. *)
Definition do_activation (num_inputs : Z) (data_loader : list Data)
  : outcome (list (string * Num) * list Num) :=
  and_then (activation_loop (numbered num_inputs data_loader) None [] [])
    (fun '(idx, counts, total_activations) =>
       and_then (activation_report idx counts)
         (fun report => Done (report, total_activations))).

(** The loop of [do_flop]; [idx] and [flops] are bound by the same turns. *)
Fixpoint flop_loop (pairs : list (nat * Data)) (idx : option nat)
    (counts : Counter) (total_flops : list Num)
  : outcome (option nat * Counter * list Num) :=
  match pairs with
  | [] => Done (idx, counts, total_flops)
  | (i, data) :: rest =>
      match analyse data with
      | Raise e => Fail (Propagated e)
      | Ok (by_operator, flops_total) =>
          flop_loop rest (Some i) (iadd counts by_operator)
                    (total_flops ++ [flops_total])
      end
  end.

(** [do_flop], from the loop on: [flop_count_table(flops)] needs the last
    analysis, then [v / (idx + 1) / 1e9] for every count. *)
Definition do_flop (num_inputs : Z) (data_loader : list Data)
  : outcome (list (string * Num) * list Num) :=
  and_then (flop_loop (numbered num_inputs data_loader) None [] [])
    (fun '(idx, counts, total_flops) =>
       match idx with
       | None => Fail UnboundLocalError
       | Some i =>
           Done (map (fun kv => (fst kv, giga (div (snd kv) (i + 1)))) counts,
                 total_flops)
       end).
End Loops.
End Counters.

End Stats.

(** ** Cutting a tuple by sizes, for the statements about [_split] *)

(** The consecutive pieces of [values] of the given sizes. *)
Fixpoint chunk (values : list pyobj) (sizes : list nat) : list (list pyobj) :=
  match sizes with
  | [] => []
  | n :: rest => firstn n values :: chunk (skipn n values) rest
  end.

(** The shape of what a schema rebuilds from leaves of the right number. *)
Definition rebuilds_alike (v : pyobj) : Prop :=
  forall r s, flatten_to_tuple v = Ok (r, s) ->
  forall values, length values = length r ->
                 Forall (fun x => is_leaf x = true) values ->
  exists o, Schema_call s values = Ok o /\ flatten_to_tuple o = Ok (values, s).

(** An adapter built for one tensor input, for the examples. *)
Definition one_tensor_adapter (allow : bool) (recorded : option Schema)
  : TracingAdapter :=
  {| adapter_training := true; model := 0;
     inputs := PTuple [PAtom (ATensor 0)];
     allow_non_tensor := allow;
     flattened_inputs := [PAtom (ATensor 0)];
     inputs_schema := Some (TupleSchema [IdentitySchema] [1]);
     outputs_schema := recorded |}.

(** * Properties *)

(** ** Induction over nested values and schemas *)

Lemma pyobj_nested_ind (P : pyobj -> Prop) :
  (forall a, P (PAtom a)) ->
  (forall items, Forall P items -> P (PList items)) ->
  (forall items, Forall P items -> P (PTuple items)) ->
  (forall entries, Forall (fun kv => P (snd kv)) entries -> P (PDict entries)) ->
  forall obj, P obj.
Proof.
  intros Ha Hl Ht Hd.
  fix IH 1.
  intros [a | items | items | entries].
  - apply Ha.
  - apply Hl. induction items as [|x xs IHxs]; constructor; [apply IH | exact IHxs].
  - apply Ht. induction items as [|x xs IHxs]; constructor; [apply IH | exact IHxs].
  - apply Hd. induction entries as [|[k v] xs IHxs]; constructor;
      [apply IH | exact IHxs].
Qed.

(** ** The result monad *)

Lemma bind_ok {A B : Type} (c : result A) (k : A -> result B) (b : B) :
  bind c k = Ok b -> exists a, c = Ok a /\ k a = Ok b.
Proof.
  destruct c as [a|e]; simpl; intros H; [eauto | discriminate].
Qed.

Lemma bind_raise {A B : Type} (c : result A) (k : A -> result B) (e : pyexc) :
  bind c k = Raise e -> c = Raise e \/ exists a, c = Ok a /\ k a = Raise e.
Proof.
  destruct c as [a|e']; simpl; intros H; [right; eauto | left; congruence].
Qed.

Lemma collect_ok_Forall2 {A B : Type} (f : A -> result B) (l : list A) (rs : list B) :
  collect (map f l) = Ok rs <-> Forall2 (fun x r => f x = Ok r) l rs.
Proof.
  revert rs. induction l as [|x l IH]; simpl; intros rs.
  - split; intros H.
    + injection H as <-. constructor.
    + inversion H. reflexivity.
  - split; intros H.
    + apply bind_ok in H as (a & Ha & H).
      apply bind_ok in H as (l' & Hl & H). injection H as <-.
      constructor; [exact Ha | apply IH; exact Hl].
    + inversion H as [|? r ? rs' Hx Hrest]; subst.
      rewrite Hx. simpl. apply IH in Hrest. rewrite Hrest. reflexivity.
Qed.

Lemma collect_raise_in {A : Type} (rs : list (result A)) (e : pyexc) :
  collect rs = Raise e -> In (Raise e) rs.
Proof.
  induction rs as [|r rs IH]; simpl; [discriminate|].
  destruct r as [a|e']; simpl.
  - destruct (collect rs) as [l|e'']; simpl; [discriminate|].
    intros H. injection H as ->. right. apply IH. reflexivity.
  - intros H. injection H as ->. left. reflexivity.
Qed.

Lemma collect_all_ok {A : Type} (rs : list (result A)) :
  (forall r, In r rs -> exists a, r = Ok a) -> exists l, collect rs = Ok l.
Proof.
  induction rs as [|r rs IH]; simpl; intros H; [eauto|].
  destruct (H r (or_introl eq_refl)) as (a & ->).
  destruct IH as (l & ->); [intros; apply H; right; assumption|].
  simpl. eauto.
Qed.

Lemma collect_some_raise {A : Type} (rs : list (result A)) (e : pyexc) :
  In (Raise e) rs -> exists e', collect rs = Raise e'.
Proof.
  induction rs as [|r rs IH]; simpl; [tauto|].
  intros [-> | Hin]; [simpl; eauto|].
  destruct r as [a|e']; simpl; [|eauto].
  destruct (IH Hin) as (e' & ->). simpl. eauto.
Qed.

(** ** Sums, concatenation and splitting *)

Lemma sum_cons (a : nat) (l : list nat) : sum (a :: l) = a + sum l.
Proof.
  unfold sum. simpl.
  assert (G : forall l x y, fold_left Nat.add l (x + y) = x + fold_left Nat.add l y).
  { clear. induction l as [|b l IH]; intros x y; simpl; [reflexivity|].
    rewrite <- Nat.add_assoc. apply IH. }
  rewrite <- (Nat.add_0_r a) at 1. apply G.
Qed.

Lemma sum_lengths_concat (vs : list (list pyobj)) :
  sum (map (@length pyobj) vs) = length (concat vs).
Proof.
  induction vs as [|v vs IH]; simpl; [reflexivity|].
  rewrite sum_cons, length_app, IH. reflexivity.
Qed.

Lemma _concat_spec (vs : list (list pyobj)) :
  _concat vs = (concat vs, map (@length pyobj) vs).
Proof.
  unfold _concat.
  assert (G : forall vs a b,
    fold_left (fun acc v => (fst acc ++ v, snd acc ++ [length v])) vs (a, b)
    = (a ++ concat vs, b ++ map (@length pyobj) vs)).
  { clear. induction vs as [|v vs IH]; intros a b; simpl.
    - rewrite !app_nil_r. reflexivity.
    - rewrite IH, <- !app_assoc. reflexivity. }
  apply (G vs [] []).
Qed.

Lemma slice_app_shift {A : Type} (v c : list A) (b e : nat) :
  slice (v ++ c) (length v + b) (length v + e) = slice c b e.
Proof.
  unfold slice. rewrite skipn_app.
  replace (length v + b - length v) with b by lia.
  rewrite skipn_all2 by lia. simpl.
  replace (length v + e - (length v + b)) with (e - b) by lia.
  reflexivity.
Qed.

Lemma slices_concat (vs : list (list pyobj)) :
  map (fun k => slice (concat vs)
                  (sum (firstn k (map (@length pyobj) vs)))
                  (sum (firstn (k + 1) (map (@length pyobj) vs))))
      (seq 0 (length vs)) = vs.
Proof.
  induction vs as [|v vs IH]; simpl; [reflexivity|].
  f_equal.
  - rewrite sum_cons. unfold slice, sum at 1 2. simpl.
    rewrite Nat.add_0_r, Nat.sub_0_r, firstn_app, firstn_all, Nat.sub_diag.
    simpl. apply app_nil_r.
  - rewrite <- seq_shift, map_map. rewrite <- IH at 2.
    apply map_ext. intros k. simpl. rewrite !sum_cons.
    apply slice_app_shift.
Qed.

Lemma _split_concat (vs : list (list pyobj)) :
  _split (concat vs) (map (@length pyobj) vs) = Ok vs.
Proof.
  unfold _split.
  rewrite sum_lengths_concat, Nat.eqb_refl, andb_false_r, length_map.
  f_equal. apply slices_concat.
Qed.

(** ** The order of [sorted] *)

Lemma str_le_trans (x y z : string) : str_le x y -> str_le y z -> str_le x z.
Proof.
  unfold str_le, String.leb. intros Hxy Hyz.
  destruct (String.compare x y) eqn:Cxy; try discriminate;
  destruct (String.compare y z) eqn:Cyz; try discriminate.
  - apply String_as_OT.cmp_eq in Cxy, Cyz. subst.
    replace (String.compare z z) with Eq; [reflexivity|].
    symmetry. apply String_as_OT.cmp_eq. reflexivity.
  - apply String_as_OT.cmp_eq in Cxy. subst. rewrite Cyz. reflexivity.
  - apply String_as_OT.cmp_eq in Cyz. subst. rewrite Cxy. reflexivity.
  - apply String_as_OT.cmp_lt in Cxy, Cyz.
    pose proof (String_as_OT.lt_trans _ _ _ Cxy Cyz) as H.
    apply String_as_OT.cmp_lt in H. unfold String_as_OT.cmp in H.
    rewrite H. reflexivity.
Qed.

Lemma str_le_total (x y : string) : String.leb x y = false -> str_le y x.
Proof.
  intros H. destruct (String.leb_total x y) as [H'|H']; [congruence | exact H'].
Qed.

Lemma insert_sorted_perm (x : string) (l : list string) :
  Permutation (insert_sorted x l) (x :: l).
Proof.
  induction l as [|y l IH]; simpl; [reflexivity|].
  destruct (String.leb x y); [reflexivity|].
  rewrite IH. apply perm_swap.
Qed.

Lemma sorted_perm (l : list string) : Permutation (sorted l) l.
Proof.
  induction l as [|x l IH]; simpl; [reflexivity|].
  rewrite insert_sorted_perm. constructor. exact IH.
Qed.

Lemma insert_sorted_strongly (x : string) (l : list string) :
  StronglySorted str_le l -> StronglySorted str_le (insert_sorted x l).
Proof.
  induction l as [|y l IH]; simpl; intros Hs.
  - constructor; constructor.
  - destruct (String.leb x y) eqn:Hxy.
    + constructor; [exact Hs|].
      constructor; [exact Hxy|].
      apply StronglySorted_inv in Hs as [_ Hall].
      eapply Forall_impl; [|exact Hall].
      intros z Hz. exact (str_le_trans Hxy Hz).
    + apply StronglySorted_inv in Hs as [Hl Hall].
      constructor; [apply IH; exact Hl|].
      eapply Permutation_Forall; [symmetry; apply insert_sorted_perm|].
      constructor; [apply str_le_total; exact Hxy | exact Hall].
Qed.

Lemma sorted_strongly (l : list string) : StronglySorted str_le (sorted l).
Proof.
  induction l as [|x l IH]; simpl; [constructor|].
  apply insert_sorted_strongly. exact IH.
Qed.

Lemma strongly_sorted_unique (l l' : list string) :
  StronglySorted str_le l -> StronglySorted str_le l' -> Permutation l l' -> l = l'.
Proof.
  revert l'. induction l as [|a l IH]; intros l' Hs Hs' Hp.
  - apply Permutation_nil in Hp. subst. reflexivity.
  - destruct l' as [|b l'].
    + apply Permutation_sym, Permutation_nil in Hp. discriminate.
    + apply StronglySorted_inv in Hs as [Hl Hal].
      apply StronglySorted_inv in Hs' as [Hl' Hbl'].
      assert (Hab : a = b).
      { assert (Ha : In a (b :: l')) by (eapply Permutation_in; [exact Hp | left; reflexivity]).
        assert (Hb : In b (a :: l))
          by (eapply Permutation_in; [symmetry; exact Hp | left; reflexivity]).
        destruct Ha as [Ha|Ha]; [congruence|].
        destruct Hb as [Hb|Hb]; [congruence|].
        rewrite Forall_forall in Hal, Hbl'.
        apply String.leb_antisym; [apply Hal; exact Hb | apply Hbl'; exact Ha]. }
      subst b. f_equal. apply IH; try assumption.
      eapply Permutation_cons_inv. exact Hp.
Qed.

(** Sorting forgets the order of its input. *)
Lemma sorted_of_perm (l l' : list string) : Permutation l l' -> sorted l = sorted l'.
Proof.
  intros Hp. apply strongly_sorted_unique; try apply sorted_strongly.
  rewrite !sorted_perm. exact Hp.
Qed.

(** ** Keys and lookups *)

Lemma key_eqb_eq (x y : pykey) : key_eqb x y = true <-> x = y.
Proof.
  unfold key_eqb. destruct (pykey_eq_dec x y); split; congruence.
Qed.

Lemma key_eqb_refl (x : pykey) : key_eqb x x = true.
Proof. apply key_eqb_eq. reflexivity. Qed.

Lemma key_eqb_neq (x y : pykey) : key_eqb x y = false <-> x <> y.
Proof.
  unfold key_eqb. destruct (pykey_eq_dec x y); split; congruence.
Qed.

Lemma getitem_then_getitem {X R : Type} (f : X -> result R) entries k :
  getitem_then f entries k = bind (getitem entries k) f.
Proof.
  induction entries as [|[k' v] rest IH]; simpl; [reflexivity|].
  destruct (key_eqb k' k); [reflexivity | exact IH].
Qed.

Lemma getitem_lookup {X : Type} (entries : list (pykey * X)) k v :
  getitem entries k = Ok v <-> lookup entries k = Some v.
Proof.
  induction entries as [|[k' v'] rest IH]; simpl.
  - split; discriminate.
  - destruct (key_eqb k' k); [split; congruence | exact IH].
Qed.

Lemma getitem_in {X : Type} (entries : list (pykey * X)) k v :
  getitem entries k = Ok v -> In (k, v) entries.
Proof.
  induction entries as [|[k' v'] rest IH]; simpl; [discriminate|].
  destruct (key_eqb k' k) eqn:E.
  - apply key_eqb_eq in E. intros H. injection H as <-. subst. left. reflexivity.
  - intros H. right. apply IH. exact H.
Qed.

Lemma getitem_raise {X : Type} (entries : list (pykey * X)) k e :
  getitem entries k = Raise e -> e = KeyError /\ ~ In k (map fst entries).
Proof.
  induction entries as [|[k' v'] rest IH]; simpl.
  - intros H. injection H as <-. tauto.
  - destruct (key_eqb k' k) eqn:E; [discriminate|].
    apply key_eqb_neq in E. intros H. apply IH in H as [-> Hn]. tauto.
Qed.

Lemma keys_unique_NoDup (ks : list pykey) : keys_unique ks = true <-> NoDup ks.
Proof.
  induction ks as [|k ks IH]; simpl.
  - split; [constructor | reflexivity].
  - rewrite andb_true_iff, negb_true_iff, IH. split.
    + intros [Hn Hd]. constructor; [|exact Hd].
      intros Hin. apply not_true_iff_false in Hn. apply Hn.
      apply existsb_exists. exists k. split; [exact Hin | apply key_eqb_refl].
    + intros H. inversion H as [|? ? Hn Hd]; subst. split; [|exact Hd].
      apply not_true_iff_false. intros Hex. apply existsb_exists in Hex as (y & Hy & E).
      apply key_eqb_eq in E. subst. contradiction.
Qed.

Lemma in_getitem {X : Type} (entries : list (pykey * X)) k v :
  NoDup (map fst entries) -> In (k, v) entries -> getitem entries k = Ok v.
Proof.
  induction entries as [|[k' v'] rest IH]; simpl; [tauto|].
  intros Hnd Hin. inversion Hnd as [|? ? Hn Hd]; subst.
  destruct Hin as [Heq|Hin].
  - injection Heq as -> ->. rewrite key_eqb_refl. reflexivity.
  - destruct (key_eqb k' k) eqn:E.
    + apply key_eqb_eq in E. subst. exfalso. apply Hn.
      apply in_map_iff. exists (k, v). split; [reflexivity | exact Hin].
    + apply IH; assumption.
Qed.

Lemma in_key_strs {X : Type} (entries : list (pykey * X)) (s : string) :
  In s (key_strs entries) <-> exists v, In (KStr s, v) entries.
Proof.
  induction entries as [|[[s'|z] v'] rest IH]; simpl.
  - split; [tauto | intros (v & [])].
  - rewrite IH. split.
    + intros [->|(v & Hv)]; [exists v'; left; reflexivity | exists v; right; exact Hv].
    + intros (v & [Heq|Hv]); [injection Heq as -> _; left; reflexivity | right; eauto].
  - rewrite IH. split.
    + intros (v & Hv). exists v. right. exact Hv.
    + intros (v & [Heq|Hv]); [discriminate | eauto].
Qed.

Lemma str_keys_map {X : Type} (entries : list (pykey * X)) :
  existsb (fun k => negb (is_str_key k)) (map fst entries) = false ->
  map fst entries = map KStr (key_strs entries).
Proof.
  induction entries as [|[[s|z] v] rest IH]; simpl; [reflexivity| |discriminate].
  intros H. f_equal. apply IH. exact H.
Qed.

Lemma key_strs_NoDup {X : Type} (entries : list (pykey * X)) :
  NoDup (map fst entries) -> NoDup (key_strs entries).
Proof.
  induction entries as [|[[s|z] v] rest IH]; simpl; intros H;
    inversion H as [|? ? Hn Hd]; subst.
  - constructor.
  - constructor; [|apply IH; exact Hd].
    intros Hin. apply in_key_strs in Hin as (v' & Hv'). apply Hn.
    apply in_map_iff. exists (KStr s, v'). split; [reflexivity | exact Hv'].
  - apply IH. exact Hd.
Qed.

Lemma key_strs_perm {X Y : Type} (d1 : list (pykey * X)) (d2 : list (pykey * Y)) :
  Permutation (map fst d1) (map fst d2) -> Permutation (key_strs d1) (key_strs d2).
Proof.
  assert (G : forall Z (d : list (pykey * Z)),
    key_strs d = flat_map (fun k => match k with KStr s => [s] | KInt _ => [] end)
                          (map fst d)).
  { clear. intros Z d. induction d as [|[[s|z] v] rest IH]; simpl; congruence. }
  intros Hp. rewrite (G X d1), (G Y d2). apply Permutation_flat_map. exact Hp.
Qed.

(** ** The equations of [flatten_to_tuple] *)

Lemma flatten_PAtom a : flatten_to_tuple (PAtom a) = Ok ([PAtom a], IdentitySchema).
Proof. reflexivity. Qed.

Lemma flatten_PList items :
  flatten_to_tuple (PList items)
  = ListSchema_flatten ListSchema (map flatten_to_tuple items).
Proof. reflexivity. Qed.

Lemma flatten_PTuple items :
  flatten_to_tuple (PTuple items)
  = ListSchema_flatten TupleSchema (map flatten_to_tuple items).
Proof. reflexivity. Qed.

Lemma flatten_PDict entries :
  flatten_to_tuple (PDict entries) = DictSchema_flatten flatten_to_tuple entries.
Proof. reflexivity. Qed.

Lemma ListSchema_flatten_ok cls res vals sch :
  ListSchema_flatten cls res = Ok (vals, sch) <->
  exists rs, collect res = Ok rs /\ vals = concat (map fst rs)
             /\ sch = cls (map snd rs) (map (@length pyobj) (map fst rs)).
Proof.
  unfold ListSchema_flatten. split.
  - intros H. apply bind_ok in H as (rs & Hrs & H).
    rewrite _concat_spec in H. injection H as <- <-. eauto.
  - intros (rs & -> & -> & ->). simpl. rewrite _concat_spec. reflexivity.
Qed.

Lemma ListSchema_flatten_raise cls res e :
  ListSchema_flatten cls res = Raise e <-> collect res = Raise e.
Proof.
  unfold ListSchema_flatten. destruct (collect res) as [rs|e']; simpl.
  - rewrite _concat_spec. split; discriminate.
  - split; congruence.
Qed.

Lemma Forall2_exists {A B : Type} (R : A -> B -> Prop) (l : list A) :
  (forall x, In x l -> exists y, R x y) -> exists ys, Forall2 R l ys.
Proof.
  induction l as [|x l IH]; intros H.
  - exists []. constructor.
  - destruct (H x (or_introl eq_refl)) as (y & Hy).
    destruct IH as (ys & Hys); [intros; apply H; right; assumption|].
    exists (y :: ys). constructor; assumption.
Qed.

(** The values of a mapping, in the order of its sorted keys. *)
Lemma sorted_values_exist (d : list (pykey * pyobj)) :
  exists vs, Forall2 (fun k v => getitem d (KStr k) = Ok v) (sorted (key_strs d)) vs.
Proof.
  apply Forall2_exists. intros k Hk.
  apply (Permutation_in _ (sorted_perm _)) in Hk.
  apply in_key_strs in Hk as (v & Hv).
  destruct (getitem d (KStr k)) as [v'|e] eqn:E; [eauto|].
  apply getitem_raise in E as [_ Hn]. exfalso. apply Hn.
  apply in_map_iff. exists (KStr k, v). split; [reflexivity | exact Hv].
Qed.

Lemma sorted_values_in (d : list (pykey * pyobj)) keys vs (P : pyobj -> Prop) :
  Forall2 (fun k v => getitem d (KStr k) = Ok v) keys vs ->
  Forall (fun kv => P (snd kv)) d -> Forall P vs.
Proof.
  intros H2 Hall. induction H2 as [|k v keys vs Hk _ IH]; constructor; [|exact IH].
  apply getitem_in in Hk. rewrite Forall_forall in Hall. exact (Hall _ Hk).
Qed.

(** A mapping with [str] keys is flattened as the list of its values in
    sorted-key order, the keys being kept in the schema. *)
Lemma flatten_dict_as_list (d : list (pykey * pyobj)) (vs : list pyobj) :
  existsb (fun k => negb (is_str_key k)) (map fst d) = false ->
  Forall2 (fun k v => getitem d (KStr k) = Ok v) (sorted (key_strs d)) vs ->
  flatten_to_tuple (PDict d)
  = ListSchema_flatten (fun ms ns => DictSchema ms ns (sorted (key_strs d)))
                       (map flatten_to_tuple vs).
Proof.
  intros Hstr H2. rewrite flatten_PDict. unfold DictSchema_flatten.
  rewrite Hstr.
  assert (E : map (fun k => getitem_then flatten_to_tuple d (KStr k)) (sorted (key_strs d))
              = map flatten_to_tuple vs).
  { induction H2 as [|k v keys vs' Hk _ IH]; simpl; [reflexivity|].
    rewrite getitem_then_getitem, Hk. simpl. f_equal. exact IH. }
  cbv zeta. rewrite E. unfold ListSchema_flatten.
  destruct (collect (map flatten_to_tuple vs)) as [rs|e]; simpl; [|reflexivity].
  rewrite _concat_spec. reflexivity.
Qed.

(** ** Which objects are flattened, and which raise *)

Lemma existsb_map_fst {X : Type} (p : pykey -> bool) (d : list (pykey * X)) :
  existsb p (map fst d) = existsb (fun kv => p (fst kv)) d.
Proof.
  induction d as [|kv d IH]; simpl; [reflexivity | rewrite IH; reflexivity].
Qed.

Lemma flatten_raises_KeyError obj e :
  flatten_to_tuple obj = Raise e -> e = KeyError.
Proof.
  revert e. induction obj as [a | items IH | items IH | d IH] using pyobj_nested_ind;
    intros e H.
  - discriminate.
  - rewrite flatten_PList in H. apply ListSchema_flatten_raise, collect_raise_in in H.
    apply in_map_iff in H as (x & Hx & Hin). rewrite Forall_forall in IH. eauto.
  - rewrite flatten_PTuple in H. apply ListSchema_flatten_raise, collect_raise_in in H.
    apply in_map_iff in H as (x & Hx & Hin). rewrite Forall_forall in IH. eauto.
  - destruct (existsb (fun k => negb (is_str_key k)) (map fst d)) eqn:Hstr.
    + rewrite flatten_PDict in H. unfold DictSchema_flatten in H. rewrite Hstr in H.
      congruence.
    + destruct (sorted_values_exist d) as (vs & Hvs).
      rewrite (flatten_dict_as_list _ Hstr Hvs) in H.
      apply ListSchema_flatten_raise, collect_raise_in in H.
      apply in_map_iff in H as (x & Hx & Hin).
      pose proof (sorted_values_in
        (fun v => forall e, flatten_to_tuple v = Raise e -> e = KeyError) Hvs IH) as Hall.
      rewrite Forall_forall in Hall. eauto.
Qed.

Lemma str_keyed_flattens obj :
  has_nonstr_key obj = false -> exists r, flatten_to_tuple obj = Ok r.
Proof.
  induction obj as [a | items IH | items IH | d IH] using pyobj_nested_ind;
    simpl has_nonstr_key; intros H.
  - rewrite flatten_PAtom. eauto.
  - rewrite flatten_PList.
    destruct (@collect_all_ok _ (map flatten_to_tuple items)) as (rs & Hrs).
    { intros r Hr. apply in_map_iff in Hr as (x & <- & Hin).
      rewrite Forall_forall in IH. apply IH; [exact Hin|].
      apply not_true_iff_false. intros Hx. apply not_true_iff_false in H. apply H.
      apply existsb_exists. eauto. }
    eexists. apply ListSchema_flatten_ok. eauto.
  - rewrite flatten_PTuple.
    destruct (@collect_all_ok _ (map flatten_to_tuple items)) as (rs & Hrs).
    { intros r Hr. apply in_map_iff in Hr as (x & <- & Hin).
      rewrite Forall_forall in IH. apply IH; [exact Hin|].
      apply not_true_iff_false. intros Hx. apply not_true_iff_false in H. apply H.
      apply existsb_exists. eauto. }
    eexists. apply ListSchema_flatten_ok. eauto.
  - apply orb_false_iff in H as [Htop Hnested].
    rewrite <- (existsb_map_fst (fun k => negb (is_str_key k))) in Htop.
    destruct (sorted_values_exist d) as (vs & Hvs).
    rewrite (flatten_dict_as_list _ Htop Hvs).
    destruct (@collect_all_ok _ (map flatten_to_tuple vs)) as (rs & Hrs).
    { intros r Hr. apply in_map_iff in Hr as (x & <- & Hin).
      assert (Hall : Forall (fun v => has_nonstr_key v = false
                                      -> exists r, flatten_to_tuple v = Ok r) vs)
        by exact (sorted_values_in
             (fun v => has_nonstr_key v = false -> exists r, flatten_to_tuple v = Ok r)
             Hvs IH).
      rewrite Forall_forall in Hall. apply Hall; [exact Hin|].
      assert (Hall' : Forall (fun v => has_nonstr_key v = false) vs).
      { apply (sorted_values_in (fun v => has_nonstr_key v = false) Hvs).
        apply Forall_forall. intros kv Hkv.
        apply not_true_iff_false. intros Hx. apply not_true_iff_false in Hnested.
        apply Hnested. apply existsb_exists. eauto. }
      rewrite Forall_forall in Hall'. apply Hall'. exact Hin. }
    eexists. apply ListSchema_flatten_ok. eauto.
Qed.

Lemma nonstr_key_raises obj :
  wf obj = true -> has_nonstr_key obj = true -> exists e, flatten_to_tuple obj = Raise e.
Proof.
  induction obj as [a | items IH | items IH | d IH] using pyobj_nested_ind;
    simpl wf; simpl has_nonstr_key; intros Hwf H.
  - discriminate.
  - apply existsb_exists in H as (x & Hin & Hx).
    rewrite Forall_forall in IH. rewrite forallb_forall in Hwf.
    destruct (IH x Hin (Hwf x Hin) Hx) as (e & He).
    destruct (@collect_some_raise _ (map flatten_to_tuple items) e) as (e' & He').
    { apply in_map_iff. eauto. }
    exists e'. rewrite flatten_PList. apply ListSchema_flatten_raise. exact He'.
  - apply existsb_exists in H as (x & Hin & Hx).
    rewrite Forall_forall in IH. rewrite forallb_forall in Hwf.
    destruct (IH x Hin (Hwf x Hin) Hx) as (e & He).
    destruct (@collect_some_raise _ (map flatten_to_tuple items) e) as (e' & He').
    { apply in_map_iff. eauto. }
    exists e'. rewrite flatten_PTuple. apply ListSchema_flatten_raise. exact He'.
  - apply andb_true_iff in Hwf as [Huniq Hwf].
    destruct (existsb (fun k => negb (is_str_key k)) (map fst d)) eqn:Hstr.
    { exists KeyError. rewrite flatten_PDict. unfold DictSchema_flatten.
      rewrite Hstr. reflexivity. }
    rewrite existsb_map_fst in Hstr. rewrite Hstr in H. simpl in H.
    rewrite <- (existsb_map_fst (fun k => negb (is_str_key k))) in Hstr.
    apply existsb_exists in H as ([k v] & Hin & Hv). simpl in Hv.
    rewrite Forall_forall in IH. rewrite forallb_forall in Hwf.
    destruct (IH _ Hin (Hwf _ Hin) Hv) as (e & He).
    destruct (sorted_values_exist d) as (vs & Hvs).
    rewrite (flatten_dict_as_list _ Hstr Hvs).
    assert (Hk : exists s, k = KStr s).
    { assert (Hk : In k (map fst d)) by (apply in_map_iff; exists (k, v); auto).
      rewrite (str_keys_map _ Hstr) in Hk. apply in_map_iff in Hk as (s & <- & _).
      eauto. }
    destruct Hk as (s & ->).
    assert (Hvin : In v vs).
    { assert (Hs : In s (sorted (key_strs d))).
      { apply (Permutation_in _ (Permutation_sym (sorted_perm _))).
        apply in_key_strs. eauto. }
      apply keys_unique_NoDup in Huniq.
      clear - Hvs Hs Hin Huniq. induction Hvs as [|k' v' ks vs' Hk' _ IHv]; [destruct Hs|].
      destruct Hs as [->|Hs]; [|right; apply IHv; exact Hs].
      left. rewrite (in_getitem _ _ _ Huniq Hin) in Hk'. congruence. }
    destruct (@collect_some_raise _ (map flatten_to_tuple vs) e) as (e' & He').
    { apply in_map_iff. eauto. }
    exists e'. apply ListSchema_flatten_raise. exact He'.
Qed.

Lemma str_keyed_has_nonstr obj : str_keyed obj = negb (has_nonstr_key obj).
Proof.
  induction obj as [a | items IH | items IH | d IH] using pyobj_nested_ind; simpl.
  - reflexivity.
  - induction IH as [|x l Hx _ IHl]; simpl; [reflexivity|].
    rewrite Hx, IHl, negb_orb. reflexivity.
  - induction IH as [|x l Hx _ IHl]; simpl; [reflexivity|].
    rewrite Hx, IHl, negb_orb. reflexivity.
  - rewrite negb_orb. f_equal.
    + clear IH. induction d as [|kv d IHd]; simpl; [reflexivity|].
      rewrite IHd, negb_orb, negb_involutive. reflexivity.
    + induction IH as [|x l Hx _ IHl]; simpl; [reflexivity|].
      rewrite Hx, IHl, negb_orb. reflexivity.
Qed.

(** ** Rebuilding what was flattened *)

Lemma dict_set_fresh {X : Type} (d : list (pykey * X)) k v :
  ~ In k (map fst d) -> dict_set d k v = d ++ [(k, v)].
Proof.
  induction d as [|[k' v'] d IH]; simpl; intros Hn; [reflexivity|].
  destruct (key_eqb k' k) eqn:E.
  - apply key_eqb_eq in E. tauto.
  - rewrite IH by tauto. reflexivity.
Qed.

Lemma dict_of_pairs_distinct {X : Type} (pairs : list (pykey * X)) :
  NoDup (map fst pairs) -> dict_of_pairs pairs = pairs.
Proof.
  unfold dict_of_pairs.
  assert (G : forall pairs acc, NoDup (map fst (acc ++ pairs)) ->
            fold_left (fun d (kv : pykey * X) => dict_set d (fst kv) (snd kv)) pairs acc
            = acc ++ pairs).
  { clear. induction pairs as [|[k v] pairs IH]; intros acc Hnd; simpl.
    - rewrite app_nil_r. reflexivity.
    - rewrite dict_set_fresh.
      + rewrite IH; rewrite <- app_assoc; [reflexivity | exact Hnd].
      + rewrite map_app in Hnd. simpl in Hnd.
        apply NoDup_remove_2 in Hnd. intros Hin. apply Hnd.
        apply in_or_app. left. exact Hin. }
  intros Hnd. apply (G pairs []). exact Hnd.
Qed.

Lemma map_fst_combine {A B : Type} (l : list A) (l' : list B) :
  length l = length l' -> map fst (combine l l') = l.
Proof.
  revert l'. induction l as [|a l IH]; intros [|b l'] H; simpl in *;
    try discriminate; [reflexivity|].
  f_equal. apply IH. lia.
Qed.

Lemma list_eqb_Forall2 (eqb : pyobj -> pyobj -> bool) l1 l2 :
  list_eqb eqb l1 l2 = true <-> Forall2 (fun x y => eqb x y = true) l1 l2.
Proof.
  revert l2. induction l1 as [|x l1 IH]; intros [|y l2]; simpl.
  - split; [constructor | reflexivity].
  - split; [discriminate | intros H; inversion H].
  - split; [discriminate | intros H; inversion H].
  - rewrite andb_true_iff, IH. split.
    + intros [Hx Hl]. constructor; assumption.
    + intros H. inversion H; subst. tauto.
Qed.

Lemma rebuild_children (vs : list pyobj) (rs : list (list pyobj * Schema)) :
  Forall2 (fun v r => flatten_to_tuple v = Ok r) vs rs ->
  Forall (fun v => forall r s, flatten_to_tuple v = Ok (r, s) ->
                   exists o, Schema_call s r = Ok o /\ py_eq o v = true) vs ->
  exists os,
    ListSchema_call Schema_call (map snd rs) (map (@length pyobj) (map fst rs))
                    (concat (map fst rs)) = Ok os
    /\ Forall2 (fun o v => py_eq o v = true) os vs.
Proof.
  intros H2 IH. unfold ListSchema_call. rewrite _split_concat. simpl bind.
  rewrite !length_map, Nat.eqb_refl. simpl negb. cbv iota.
  induction H2 as [|v [r s] vs rs Hv _ IHrs]; simpl.
  - exists []. split; [reflexivity | constructor].
  - inversion IH as [|? ? Hhead Htail]; subst.
    destruct (Hhead r s Hv) as (o & Ho & Heq).
    destruct (IHrs Htail) as (os & Hos & Hall).
    rewrite Ho, Hos. simpl. exists (o :: os). split; [reflexivity|].
    constructor; assumption.
Qed.

Lemma dict_sub_sorted (d : list (pykey * pyobj)) keys vs os :
  Forall2 (fun k v => getitem d (KStr k) = Ok v) keys vs ->
  Forall2 (fun o v => py_eq o v = true) os vs ->
  dict_sub py_eq (combine (map KStr keys) os) d = true.
Proof.
  intros H2. revert os. induction H2 as [|k v keys vs Hk _ IH]; intros os Hos.
  - reflexivity.
  - inversion Hos as [|o ? os' ? Ho Hos']; subst. simpl.
    apply getitem_lookup in Hk. rewrite Hk, Ho. simpl. apply IH. exact Hos'.
Qed.

Lemma roundtrip_gen obj :
  wf obj = true ->
  forall r s, flatten_to_tuple obj = Ok (r, s) ->
  exists o, Schema_call s r = Ok o /\ py_eq o obj = true.
Proof.
  induction obj as [a | items IH | items IH | d IH] using pyobj_nested_ind;
    simpl wf; intros Hwf r s H.
  - rewrite flatten_PAtom in H. injection H as <- <-. simpl.
    exists (PAtom a). split; [reflexivity|].
    simpl. unfold atom_eqb. destruct (atom_eq_dec a a); congruence.
  - rewrite flatten_PList in H. apply ListSchema_flatten_ok in H as (rs & Hrs & -> & ->).
    apply collect_ok_Forall2 in Hrs.
    destruct (@rebuild_children items rs Hrs) as (os & Hos & Hall).
    { rewrite forallb_forall in Hwf. rewrite Forall_forall in IH |- *.
      intros x Hx. apply IH; [exact Hx | apply Hwf; exact Hx]. }
    exists (PList os). simpl Schema_call. rewrite Hos. split; [reflexivity|].
    simpl. apply list_eqb_Forall2. exact Hall.
  - rewrite flatten_PTuple in H. apply ListSchema_flatten_ok in H as (rs & Hrs & -> & ->).
    apply collect_ok_Forall2 in Hrs.
    destruct (@rebuild_children items rs Hrs) as (os & Hos & Hall).
    { rewrite forallb_forall in Hwf. rewrite Forall_forall in IH |- *.
      intros x Hx. apply IH; [exact Hx | apply Hwf; exact Hx]. }
    exists (PTuple os). simpl Schema_call. rewrite Hos. split; [reflexivity|].
    simpl. apply list_eqb_Forall2. exact Hall.
  - apply andb_true_iff in Hwf as [Huniq Hwf]. apply keys_unique_NoDup in Huniq.
    destruct (existsb (fun k => negb (is_str_key k)) (map fst d)) eqn:Hstr.
    { rewrite flatten_PDict in H. unfold DictSchema_flatten in H. rewrite Hstr in H.
      discriminate. }
    destruct (sorted_values_exist d) as (vs & Hvs).
    rewrite (flatten_dict_as_list _ Hstr Hvs) in H.
    apply ListSchema_flatten_ok in H as (rs & Hrs & -> & ->).
    apply collect_ok_Forall2 in Hrs.
    destruct (@rebuild_children vs rs Hrs) as (os & Hos & Hall).
    { apply (sorted_values_in
               (fun v => forall r s, flatten_to_tuple v = Ok (r, s) ->
                         exists o, Schema_call s r = Ok o /\ py_eq o v = true) Hvs).
      rewrite forallb_forall in Hwf. rewrite Forall_forall in IH |- *.
      intros kv Hkv. apply IH; [exact Hkv | apply Hwf; exact Hkv]. }
    eexists. simpl Schema_call. rewrite Hos. split; [reflexivity|].
    assert (Hlen : length (map KStr (sorted (key_strs d))) = length os).
    { rewrite length_map. apply Forall2_length in Hvs, Hall. congruence. }
    rewrite dict_of_pairs_distinct.
    + simpl. rewrite (dict_sub_sorted d Hvs Hall), andb_true_r.
      apply Nat.eqb_eq. rewrite length_combine, <- Hlen, Nat.min_id, length_map.
      rewrite (Permutation_length (sorted_perm _)).
      rewrite <- (length_map KStr), <- (str_keys_map _ Hstr), length_map. reflexivity.
    + rewrite (map_fst_combine _ _ Hlen).
      apply Finite.Injective_map_NoDup; [intros x y E; congruence|].
      apply (Permutation_NoDup (Permutation_sym (sorted_perm _))).
      apply key_strs_NoDup. exact Huniq.
Qed.

(** ** C1 *)



(** ** Entries in sorted-key order *)

Lemma insert_entry_fst {Y : Type} (e : string * Y) (l : list (string * Y)) :
  map fst (insert_entry e l) = insert_sorted (fst e) (map fst l).
Proof.
  induction l as [|e' l IH]; simpl; [reflexivity|].
  destruct (String.leb (fst e) (fst e')); simpl; [reflexivity|].
  rewrite IH. reflexivity.
Qed.

Lemma sort_entries_fst {Y : Type} (l : list (string * Y)) :
  map fst (sort_entries l) = sorted (map fst l).
Proof.
  induction l as [|e l IH]; simpl; [reflexivity|].
  rewrite insert_entry_fst, IH. reflexivity.
Qed.

Lemma insert_entry_perm {Y : Type} (e : string * Y) (l : list (string * Y)) :
  Permutation (insert_entry e l) (e :: l).
Proof.
  induction l as [|e' l IH]; simpl; [reflexivity|].
  destruct (String.leb (fst e) (fst e')); [reflexivity|].
  rewrite IH. apply perm_swap.
Qed.

Lemma sort_entries_perm {Y : Type} (l : list (string * Y)) :
  Permutation (sort_entries l) l.
Proof.
  induction l as [|e l IH]; simpl; [reflexivity|].
  rewrite insert_entry_perm. constructor. exact IH.
Qed.

Lemma str_entries_fst {X Y : Type} (f : X -> Y) (d : list (pykey * X)) :
  map fst (str_entries f d) = key_strs d.
Proof.
  induction d as [|[[s|z] v] d IH]; simpl; congruence.
Qed.

Lemma in_str_entries {X Y : Type} (f : X -> Y) (d : list (pykey * X)) s y :
  In (s, y) (str_entries f d) -> exists v, In (KStr s, v) d /\ y = f v.
Proof.
  induction d as [|[[s'|z] v] d IH]; simpl; [tauto| |].
  - intros [H|H].
    + injection H as -> <-. eauto.
    + destruct (IH H) as (v' & Hv' & ->). eauto.
  - intros H. destruct (IH H) as (v' & Hv' & ->). eauto.
Qed.

Lemma sorted_entries_values {Y : Type} (f : pyobj -> Y) (d : list (pykey * pyobj))
    (vs : list pyobj) :
  NoDup (map fst d) ->
  Forall2 (fun k v => getitem d (KStr k) = Ok v) (sorted (key_strs d)) vs ->
  map snd (sort_entries (str_entries f d)) = map f vs.
Proof.
  intros Hnd. rewrite <- (str_entries_fst f d), <- sort_entries_fst.
  assert (Hin : forall e, In e (sort_entries (str_entries f d)) ->
                          exists v, getitem d (KStr (fst e)) = Ok v /\ snd e = f v).
  { intros [s y] He. apply (Permutation_in _ (sort_entries_perm _)) in He.
    apply in_str_entries in He as (v & Hv & ->).
    exists v. split; [apply in_getitem; assumption | reflexivity]. }
  revert vs Hin. generalize (sort_entries (str_entries f d)) as L.
  induction L as [|e L IH]; intros vs Hin H2; inversion H2; subst; simpl.
  - reflexivity.
  - destruct (Hin e (or_introl eq_refl)) as (v & Hv & ->).
    f_equal; [congruence|].
    apply IH; [intros; apply Hin; right; assumption | assumption].
Qed.

(** ** C2 *)

Lemma leaves_are_leaves obj : Forall (fun x => is_leaf x = true) (leaves obj).
Proof.
  induction obj as [a | items IH | items IH | d IH] using pyobj_nested_ind; simpl.
  - constructor; [reflexivity | constructor].
  - apply Forall_concat. apply Forall_map. exact IH.
  - apply Forall_concat. apply Forall_map. exact IH.
  - apply Forall_concat. apply Forall_map.
    eapply Permutation_Forall; [symmetry; apply sort_entries_perm|].
    apply Forall_forall. intros [s y] He.
    apply in_str_entries in He as (v & Hv & ->).
    rewrite Forall_forall in IH. exact (IH _ Hv).
Qed.

Lemma flat_children (vs : list pyobj) (rs : list (list pyobj * Schema)) :
  Forall2 (fun v r => flatten_to_tuple v = Ok r) vs rs ->
  Forall (fun v => forall r s, flatten_to_tuple v = Ok (r, s) -> r = leaves v) vs ->
  map fst rs = map leaves vs.
Proof.
  intros H2 IH. induction H2 as [|v [r s] vs rs Hv _ IHrs]; simpl; [reflexivity|].
  inversion IH as [|? ? Hhead Htail]; subst.
  f_equal; [exact (Hhead r s Hv) | apply IHrs; exact Htail].
Qed.

Lemma flatten_leaves_gen obj :
  wf obj = true ->
  forall r s, flatten_to_tuple obj = Ok (r, s) -> r = leaves obj.
Proof.
  induction obj as [a | items IH | items IH | d IH] using pyobj_nested_ind;
    simpl wf; intros Hwf r s H.
  - rewrite flatten_PAtom in H. injection H as <- <-. reflexivity.
  - rewrite flatten_PList in H. apply ListSchema_flatten_ok in H as (rs & Hrs & -> & ->).
    apply collect_ok_Forall2 in Hrs. simpl. f_equal. apply flat_children; [exact Hrs|].
    rewrite forallb_forall in Hwf. rewrite Forall_forall in IH |- *.
    intros x Hx. apply IH; [exact Hx | apply Hwf; exact Hx].
  - rewrite flatten_PTuple in H. apply ListSchema_flatten_ok in H as (rs & Hrs & -> & ->).
    apply collect_ok_Forall2 in Hrs. simpl. f_equal. apply flat_children; [exact Hrs|].
    rewrite forallb_forall in Hwf. rewrite Forall_forall in IH |- *.
    intros x Hx. apply IH; [exact Hx | apply Hwf; exact Hx].
  - apply andb_true_iff in Hwf as [Huniq Hwf]. apply keys_unique_NoDup in Huniq.
    destruct (existsb (fun k => negb (is_str_key k)) (map fst d)) eqn:Hstr.
    { rewrite flatten_PDict in H. unfold DictSchema_flatten in H. rewrite Hstr in H.
      discriminate. }
    destruct (sorted_values_exist d) as (vs & Hvs).
    rewrite (flatten_dict_as_list _ Hstr Hvs) in H.
    apply ListSchema_flatten_ok in H as (rs & Hrs & -> & ->).
    apply collect_ok_Forall2 in Hrs. simpl.
    rewrite (@sorted_entries_values _ leaves d vs Huniq Hvs). f_equal.
    apply flat_children; [exact Hrs|].
    apply (sorted_values_in
             (fun v => forall r s, flatten_to_tuple v = Ok (r, s) -> r = leaves v) Hvs).
    rewrite forallb_forall in Hwf. rewrite Forall_forall in IH |- *.
    intros kv Hkv. apply IH; [exact Hkv | apply Hwf; exact Hkv].
Qed.

(** C2 (flat result).  For every object built from nested lists, tuples and
    mappings with [str] keys, the first component returned by
    [flatten_to_tuple] is the sequence of the leaves of the object, list and
    tuple elements in element order and mapping values in sorted-key order,
    and none of its elements is a list, a tuple or a mapping. *)
Theorem flatten_is_leaves (obj : pyobj) :
  wf obj = true -> str_keyed obj = true ->
  exists res schema,
    flatten_to_tuple obj = Ok (res, schema)
    /\ res = leaves obj
    /\ Forall (fun x => is_leaf x = true) res.
Proof.
  intros Hwf Hstr. rewrite str_keyed_has_nonstr in Hstr.
  apply negb_true_iff in Hstr.
  destruct (str_keyed_flattens _ Hstr) as ([res schema] & H).
  exists res, schema. split; [exact H|].
  rewrite (flatten_leaves_gen _ Hwf H). split; [reflexivity | apply leaves_are_leaves].
Qed.

Lemma flatten_is_leaves_witness :
  exists res schema,
    flatten_to_tuple
      (PList [PDict [(KStr "y", PAtom (AInt 1)); (KStr "x", PTuple [PAtom (AInt 2); PAtom ANone])];
              PAtom (AStr "ab")]) = Ok (res, schema)
    /\ res = leaves
         (PList [PDict [(KStr "y", PAtom (AInt 1)); (KStr "x", PTuple [PAtom (AInt 2); PAtom ANone])];
                 PAtom (AStr "ab")])
    /\ Forall (fun x => is_leaf x = true) res.
Proof.
  apply flatten_is_leaves; reflexivity.
Defined.

(** ** C3 *)

(** C3 (type check on mapping keys).  [flatten_to_tuple] raises [KeyError]
    exactly when the object, or a container nested in it, is a mapping with a
    key that is not a [str]; when all keys of all mappings are [str] it
    returns. *)
Theorem flatten_KeyError_iff (obj : pyobj) :
  wf obj = true ->
  (flatten_to_tuple obj = Raise KeyError <-> has_nonstr_key obj = true)
  /\ (has_nonstr_key obj = false ->
      exists res schema, flatten_to_tuple obj = Ok (res, schema)).
Proof.
  intros Hwf. split; [split|].
  - intros H. destruct (has_nonstr_key obj) eqn:E; [reflexivity|].
    destruct (str_keyed_flattens _ E) as (r & Hr). congruence.
  - intros H. destruct (nonstr_key_raises _ Hwf H) as (e & He).
    rewrite He. f_equal. exact (flatten_raises_KeyError _ He).
  - intros H. destruct (str_keyed_flattens _ H) as ([res schema] & Hr). eauto.
Qed.

Lemma flatten_KeyError_iff_witness :
  (flatten_to_tuple
     (PList [PDict [(KStr "a", PTuple [PDict [(KInt 7, PAtom ANone)]])]]) = Raise KeyError
   <-> has_nonstr_key
         (PList [PDict [(KStr "a", PTuple [PDict [(KInt 7, PAtom ANone)]])]]) = true)
  /\ (has_nonstr_key
        (PList [PDict [(KStr "a", PTuple [PDict [(KInt 7, PAtom ANone)]])]]) = false ->
      exists res schema,
        flatten_to_tuple
          (PList [PDict [(KStr "a", PTuple [PDict [(KInt 7, PAtom ANone)]])]])
        = Ok (res, schema)).
Proof.
  apply flatten_KeyError_iff. reflexivity.
Defined.

(** ** C5 *)

Lemma nat_list_eqb_refl (l : list nat) : nat_list_eqb l l = true.
Proof.
  unfold nat_list_eqb. destruct (list_eq_dec Nat.eq_dec l l); congruence.
Qed.

Lemma sized_children (vs : list pyobj) (rs : list (list pyobj * Schema)) :
  Forall2 (fun v r => flatten_to_tuple v = Ok r) vs rs ->
  Forall (fun v => forall r s, flatten_to_tuple v = Ok (r, s) ->
                   schema_inv s = true /\ width s = length r) vs ->
  (length (map snd rs) =? length (map (@length pyobj) (map fst rs))) = true
  /\ nat_list_eqb (map width (map snd rs)) (map (@length pyobj) (map fst rs)) = true
  /\ forallb schema_inv (map snd rs) = true
  /\ Forall2 (fun e ms => exists r, flatten_to_tuple e = Ok (r, fst ms)
                                    /\ snd ms = length r)
             vs (combine (map snd rs) (map (@length pyobj) (map fst rs))).
Proof.
  intros H2 IH. split; [rewrite !length_map; apply Nat.eqb_refl|].
  induction H2 as [|v [r s] vs rs Hv _ IHrs]; simpl.
  - repeat split. constructor.
  - inversion IH as [|? ? Hhead Htail]; subst.
    destruct (Hhead r s Hv) as [Hinv Hw].
    destruct (IHrs Htail) as (Heq & Hall & Hel).
    unfold nat_list_eqb in Heq.
    destruct (list_eq_dec Nat.eq_dec _ _) as [Heq'|]; [|discriminate].
    rewrite Hw, Heq', nat_list_eqb_refl, Hinv, Hall. repeat split.
    constructor; [exists r; auto | exact Hel].
Qed.

Lemma schema_sizes_gen obj :
  wf obj = true ->
  forall res sch, flatten_to_tuple obj = Ok (res, sch) ->
  schema_inv sch = true /\ width sch = length res
  /\ length (schemas_of sch) = length (sizes_of sch)
  /\ Forall2 (fun e ms => exists r, flatten_to_tuple e = Ok (r, fst ms)
                                    /\ snd ms = length r)
             (elements obj) (combine (schemas_of sch) (sizes_of sch))
  /\ (is_leaf obj = false -> sum (sizes_of sch) = length res).
Proof.
  induction obj as [a | items IH | items IH | d IH] using pyobj_nested_ind;
    simpl wf; intros Hwf res sch H.
  - rewrite flatten_PAtom in H. injection H as <- <-. simpl.
    repeat split; [constructor | discriminate].
  - rewrite flatten_PList in H. apply ListSchema_flatten_ok in H as (rs & Hrs & -> & ->).
    apply collect_ok_Forall2 in Hrs.
    destruct (@sized_children items rs Hrs) as (Hlen & Heq & Hall & Hel).
    { rewrite forallb_forall in Hwf. rewrite Forall_forall in IH |- *.
      intros x Hx r s Hr. destruct (IH x Hx (Hwf x Hx) r s Hr) as (? & ? & _). auto. }
    simpl. rewrite Hlen, Heq, Hall. unfold width. simpl sizes_of.
    rewrite sum_lengths_concat. apply Nat.eqb_eq in Hlen. repeat split; assumption.
  - rewrite flatten_PTuple in H. apply ListSchema_flatten_ok in H as (rs & Hrs & -> & ->).
    apply collect_ok_Forall2 in Hrs.
    destruct (@sized_children items rs Hrs) as (Hlen & Heq & Hall & Hel).
    { rewrite forallb_forall in Hwf. rewrite Forall_forall in IH |- *.
      intros x Hx r s Hr. destruct (IH x Hx (Hwf x Hx) r s Hr) as (? & ? & _). auto. }
    simpl. rewrite Hlen, Heq, Hall. unfold width. simpl sizes_of.
    rewrite sum_lengths_concat. apply Nat.eqb_eq in Hlen. repeat split; assumption.
  - apply andb_true_iff in Hwf as [Huniq Hwf]. apply keys_unique_NoDup in Huniq.
    destruct (existsb (fun k => negb (is_str_key k)) (map fst d)) eqn:Hstr.
    { rewrite flatten_PDict in H. unfold DictSchema_flatten in H. rewrite Hstr in H.
      discriminate. }
    destruct (sorted_values_exist d) as (vs & Hvs).
    rewrite (flatten_dict_as_list _ Hstr Hvs) in H.
    apply ListSchema_flatten_ok in H as (rs & Hrs & -> & ->).
    apply collect_ok_Forall2 in Hrs.
    destruct (@sized_children vs rs Hrs) as (Hlen & Heq & Hall & Hel).
    { apply (sorted_values_in
               (fun v => forall r s, flatten_to_tuple v = Ok (r, s) ->
                         schema_inv s = true /\ width s = length r) Hvs).
      rewrite forallb_forall in Hwf. rewrite Forall_forall in IH |- *.
      intros kv Hkv r s Hr. destruct (IH kv Hkv (Hwf kv Hkv) r s Hr) as (? & ? & _).
      auto. }
    simpl schema_inv. rewrite Hlen, Heq, Hall. unfold width. simpl sizes_of.
    simpl schemas_of. simpl elements.
    rewrite (@sorted_entries_values _ (fun v => v) d vs Huniq Hvs), map_id.
    rewrite sum_lengths_concat. apply Nat.eqb_eq in Hlen. repeat split; assumption.
Qed.

(** C5 (schema sizes).  In every schema produced by [flatten_to_tuple],
    [len(schemas) == len(sizes)], every entry of [sizes] is the flattened
    length of the corresponding element (list or tuple item, mapping value in
    sorted-key order), whose own schema is the corresponding entry of
    [schemas], and [sum(sizes)] is the length of the flattened tuple returned
    with the schema; [schema_inv] states the same for every nested schema. *)
Theorem schema_sizes (obj : pyobj) (res : list pyobj) (sch : Schema) :
  wf obj = true ->
  flatten_to_tuple obj = Ok (res, sch) ->
  schema_inv sch = true
  /\ width sch = length res
  /\ length (schemas_of sch) = length (sizes_of sch)
  /\ Forall2 (fun e ms => exists r, flatten_to_tuple e = Ok (r, fst ms)
                                    /\ snd ms = length r)
             (elements obj) (combine (schemas_of sch) (sizes_of sch))
  /\ (is_leaf obj = false -> sum (sizes_of sch) = length res).
Proof.
  intros Hwf H. exact (schema_sizes_gen _ Hwf H).
Qed.

Lemma schema_sizes_witness :
  schema_inv (DictSchema [TupleSchema [IdentitySchema; ListSchema [] []] [1; 0];
                          ListSchema [IdentitySchema; IdentitySchema] [1; 1]]
                         [1; 2] ["a"; "b"]%string) = true
  /\ width (DictSchema [TupleSchema [IdentitySchema; ListSchema [] []] [1; 0];
                        ListSchema [IdentitySchema; IdentitySchema] [1; 1]]
                       [1; 2] ["a"; "b"]%string) = 3.
Proof.
  pose proof (@schema_sizes
    (PDict [(KStr "b", PList [PAtom (ATensor 1); PAtom (AStr "x")]);
            (KStr "a", PTuple [PAtom (ATensor 2); PList []])])
    [PAtom (ATensor 2); PAtom (ATensor 1); PAtom (AStr "x")]
    (DictSchema [TupleSchema [IdentitySchema; ListSchema [] []] [1; 0];
                 ListSchema [IdentitySchema; IdentitySchema] [1; 1]]
                [1; 2] ["a"; "b"]%string)
    eq_refl eq_refl) as (H1 & H2 & _).
  split; [exact H1 | exact H2].
Defined.

(** ** C8 *)

Lemma dict_sub_in (eqb : pyobj -> pyobj -> bool) d1 d2 k v :
  dict_sub eqb d1 d2 = true -> In (k, v) d1 ->
  exists v', lookup d2 k = Some v' /\ eqb v v' = true.
Proof.
  induction d1 as [|[k1 v1] d1 IH]; simpl; [tauto|].
  intros H Hin. apply andb_true_iff in H as [Hhead Htail].
  destruct Hin as [Heq|Hin]; [|apply IH; assumption].
  injection Heq as -> ->.
  destruct (lookup d2 k) as [v'|]; [eauto | discriminate].
Qed.

Lemma lookup_in_keys {X : Type} (d : list (pykey * X)) k v :
  lookup d k = Some v -> In k (map fst d).
Proof.
  intros H. apply getitem_lookup, getitem_in in H.
  apply in_map_iff. exists (k, v). auto.
Qed.

Lemma existsb_perm {A : Type} (p : A -> bool) (l l' : list A) :
  Permutation l l' -> existsb p l = existsb p l'.
Proof.
  intros Hp. apply eq_true_iff_eq. rewrite !existsb_exists.
  split; intros (x & Hx & Hpx); exists x; split; try assumption.
  - eapply Permutation_in; eassumption.
  - eapply Permutation_in; [symmetry|]; eassumption.
Qed.

Lemma py_eq_flatten a :
  wf a = true -> forall b, py_eq a b = true -> flatten_to_tuple a = flatten_to_tuple b.
Proof.
  induction a as [x | items IH | items IH | d1 IH] using pyobj_nested_ind;
    simpl wf; intros Hwf [y | l2 | l2 | d2]; simpl py_eq; intros H;
    try discriminate.
  - unfold atom_eqb in H. destruct (atom_eq_dec x y); congruence.
  - rewrite !flatten_PList. f_equal.
    apply list_eqb_Forall2 in H. rewrite forallb_forall in Hwf.
    rewrite Forall_forall in IH.
    induction H as [|u v l l' Huv _ IHl]; simpl; [reflexivity|].
    f_equal.
    + apply IH; [left; reflexivity | apply Hwf; left; reflexivity | exact Huv].
    + apply IHl; intros; [apply IH | apply Hwf]; try right; assumption.
  - rewrite !flatten_PTuple. f_equal.
    apply list_eqb_Forall2 in H. rewrite forallb_forall in Hwf.
    rewrite Forall_forall in IH.
    induction H as [|u v l l' Huv _ IHl]; simpl; [reflexivity|].
    f_equal.
    + apply IH; [left; reflexivity | apply Hwf; left; reflexivity | exact Huv].
    + apply IHl; intros; [apply IH | apply Hwf]; try right; assumption.
  - apply andb_true_iff in Hwf as [Huniq Hwf]. apply keys_unique_NoDup in Huniq.
    apply andb_true_iff in H as [Hlen Hsub]. apply Nat.eqb_eq in Hlen.
    assert (Hp : Permutation (map fst d1) (map fst d2)).
    { apply NoDup_Permutation_bis; [exact Huniq | rewrite !length_map; lia|].
      intros k Hk. apply in_map_iff in Hk as ([k' v] & <- & Hin).
      destruct (dict_sub_in _ _ _ _ _ Hsub Hin) as (v' & Hv' & _).
      exact (lookup_in_keys _ _ Hv'). }
    rewrite !flatten_PDict. unfold DictSchema_flatten.
    rewrite <- (existsb_perm _ Hp), <- (sorted_of_perm (key_strs_perm _ _ Hp)).
    destruct (existsb (fun k => negb (is_str_key k)) (map fst d1)); [reflexivity|].
    cbv zeta. f_equal. f_equal. apply map_ext_in. intros k Hk.
    apply (Permutation_in _ (sorted_perm _)) in Hk.
    apply in_key_strs in Hk as (v & Hv).
    destruct (dict_sub_in _ _ _ _ _ Hsub Hv) as (v' & Hv' & Heq).
    rewrite !getitem_then_getitem, (in_getitem _ _ _ Huniq Hv).
    apply getitem_lookup in Hv'. rewrite Hv'. simpl.
    rewrite Forall_forall in IH. rewrite forallb_forall in Hwf.
    exact (IH _ Hv (Hwf _ Hv) _ Heq).
Qed.



(** ** C9 *)

Lemma flatten_to_tuple_dispatch (obj : pyobj) :
  flatten_to_tuple obj = flatten_with (select_schema obj) obj.
Proof.
  destruct obj as [[s | b | z | | id | id] | items | items | entries]; reflexivity.
Qed.

(** C9 (strings are leaves).  A [str] or [bytes] value is matched by the
    first row of the dispatch table and flattened to the one-element tuple
    that holds it, with an [IdentitySchema]; so is every object that is not a
    list, a tuple or a mapping. *)
Theorem strings_are_leaves :
  (forall s : string,
      select_schema (PAtom (AStr s)) = IdentitySchema_class
      /\ flatten_to_tuple (PAtom (AStr s)) = Ok ([PAtom (AStr s)], IdentitySchema))
  /\ (forall b : list Byte.byte,
      select_schema (PAtom (ABytes b)) = IdentitySchema_class
      /\ flatten_to_tuple (PAtom (ABytes b)) = Ok ([PAtom (ABytes b)], IdentitySchema))
  /\ (forall a : atom,
      select_schema (PAtom a) = IdentitySchema_class
      /\ flatten_to_tuple (PAtom a) = Ok ([PAtom a], IdentitySchema)
      /\ Schema_call IdentitySchema [PAtom a] = Ok (PAtom a)).
Proof.
  split; [|split].
  - intros s. rewrite flatten_to_tuple_dispatch. split; reflexivity.
  - intros b. rewrite flatten_to_tuple_dispatch. split; reflexivity.
  - intros a. rewrite flatten_to_tuple_dispatch.
    destruct a; repeat split; reflexivity.
Qed.

(** ** C4 *)

Lemma existsb_negb_forallb {A : Type} (p : A -> bool) (l : list A) :
  existsb (fun x => negb (p x)) l = negb (forallb p l).
Proof.
  induction l as [|x l IH]; simpl; [reflexivity|].
  rewrite IH, negb_andb. reflexivity.
Qed.

Lemma check_tensors_spec (xs : list pyobj) :
  check_tensors xs = if forallb is_tensor xs then Ok tt else Raise ValueError.
Proof.
  induction xs as [|x xs IH]; simpl; [reflexivity|].
  destruct (is_tensor x); simpl; [exact IH | reflexivity].
Qed.

(** C4 (type check on tracing inputs).  With [allow_non_tensor=False] the
    constructor raises [ValueError] exactly when the inputs are flattened and
    some flattened element is not a tensor.  With [allow_non_tensor=True] the
    only exception is the one of the flattening itself; when some flattened
    element is not a tensor the adapter keeps the tensors only and its
    [inputs_schema] is [None]. *)
Theorem TracingAdapter_tensor_check (root : nnModule) (steps : nat) (inputs0 : pyobj) :
  (TracingAdapter_init root steps inputs0 false = Raise ValueError <->
   exists res sch,
     flatten_to_tuple (as_tuple inputs0) = Ok (res, sch)
     /\ existsb (fun x => negb (is_tensor x)) res = true)
  /\ (forall e, TracingAdapter_init root steps inputs0 true = Raise e ->
                flatten_to_tuple (as_tuple inputs0) = Raise e /\ e = KeyError)
  /\ (forall res sch,
        flatten_to_tuple (as_tuple inputs0) = Ok (res, sch) ->
        existsb (fun x => negb (is_tensor x)) res = true ->
        exists self,
          TracingAdapter_init root steps inputs0 true = Ok self
          /\ flattened_inputs self = filter is_tensor res
          /\ inputs_schema self = None).
Proof.
  unfold TracingAdapter_init.
  destruct (flatten_to_tuple (as_tuple inputs0)) as [[flat schema]|e0] eqn:Hflat;
    simpl bind.
  - rewrite check_tensors_spec.
    split; [split|split].
    + intros H. exists flat, schema. split; [reflexivity|].
      rewrite existsb_negb_forallb.
      destruct (forallb is_tensor flat); [discriminate | reflexivity].
    + intros (res & sch & Heq & Hex). injection Heq as <- <-.
      rewrite existsb_negb_forallb in Hex. apply negb_true_iff in Hex.
      rewrite Hex. reflexivity.
    + intros e H. destruct (forallb is_tensor flat); discriminate.
    + intros res sch Heq Hex. injection Heq as <- <-.
      rewrite existsb_negb_forallb in Hex. apply negb_true_iff in Hex.
      rewrite Hex. eexists. split; [reflexivity|]. split; reflexivity.
  - split; [split|split].
    + intros H. injection H as ->.
      apply flatten_raises_KeyError in Hflat. discriminate.
    + intros (res & sch & Heq & _). discriminate.
    + intros e H. injection H as <-.
      split; [reflexivity | exact (flatten_raises_KeyError _ Hflat)].
    + intros res sch Heq. discriminate.
Qed.

(** ** C10 *)

Lemma training_train (mode : bool) (m : nnModule) : training (train mode m) = mode.
Proof. destruct m; reflexivity. Qed.

Lemma TracingAdapter_init_model root steps inputs0 allow self :
  TracingAdapter_init root steps inputs0 allow = Ok self ->
  model self = unwrap steps root.
Proof.
  unfold TracingAdapter_init.
  destruct (flatten_to_tuple (as_tuple inputs0)) as [[flat schema]|e]; simpl bind;
    [|discriminate].
  destruct (forallb is_tensor flat).
  - intros H. injection H as <-. reflexivity.
  - destruct allow.
    + intros H. injection H as <-. reflexivity.
    + destruct (check_tensors flat); simpl; intros H; [|discriminate].
      injection H as <-. reflexivity.
Qed.




(** ** C6 *)

Module AnalysisFacts.
Import Analysis.

Lemma choice_dispatch (task : string) :
  existsb (String.eqb task) choices = true ->
  exists f, table_get table task = Ok f /\ named_fn task = Some f.
Proof.
  unfold choices. simpl. rewrite !orb_true_iff.
  intros [H | [H | [H | [H | H]]]]; try discriminate;
    apply String.eqb_eq in H; subst task; eexists; split; reflexivity.
Qed.

Lemma parse_tasks_ok given names :
  parse_tasks given = Ok names ->
  given = Some names /\ names <> []
  /\ Forall (fun n => existsb (String.eqb n) choices = true) names.
Proof.
  unfold parse_tasks. destruct given as [[|n l]|]; try discriminate.
  destruct (forallb _ (n :: l)) eqn:E; [|discriminate].
  intros H. injection H as <-. split; [reflexivity|]. split; [discriminate|].
  apply Forall_forall. apply forallb_forall. exact E.
Qed.

Section Loop.
Variables (Cfg World : Type).
Variable body : task_fn -> Cfg -> World -> result unit * World.
Hypothesis body_returns : forall f cfg w, fst (body f cfg w) = Ok tt.

Lemma task_loop_calls (names : list string) (cfg : Cfg) (st : state Cfg World) :
  Forall (fun n => existsb (String.eqb n) choices = true) names ->
  exists w' calls,
    task_loop body names cfg st = (Ok tt, (w', snd st ++ calls))
    /\ Forall2 (fun n ev => exists f, named_fn n = Some f /\ ev = Invoke f cfg)
               names calls.
Proof.
  intros Hall. revert st.
  induction Hall as [|n names Hn _ IH]; intros [w tr]; cbn [task_loop snd].
  - exists w, []. rewrite app_nil_r. split; [reflexivity | constructor].
  - destruct (choice_dispatch _ Hn) as (f & -> & Hf).
    unfold invoke. cbn [fst snd].
    pose proof (body_returns f cfg w) as Hret.
    destruct (body f cfg w) as [r w1]. simpl in Hret. subst r.
    destruct (IH (w1, tr ++ [Invoke f cfg])) as (w' & calls & Hloop & Hcalls).
    simpl snd in Hloop. rewrite <- app_assoc in Hloop.
    exists w', (Invoke f cfg :: calls). split; [exact Hloop|].
    constructor; [eauto | exact Hcalls].
Qed.
End Loop.

End AnalysisFacts.



(** ** C7 *)

(** C7 (model configuration).  The model of [resnet18_tusimple.py] is a lazy
    call of [GSENet] with exactly three arguments, named [backbone], [neck]
    and [head], which are lazy calls of [ResNetWrapper], [FPN] and
    [GSEHead]. *)
Theorem model_has_three_stages :
  (exists kwargs, Config.model = Config.LazyCall "GSENet" kwargs /\ length kwargs = 3)
  /\ Config.stages Config.model
     = [("backbone", Some "ResNetWrapper"); ("neck", Some "FPN");
        ("head", Some "GSEHead")]%string.
Proof.
  split; [eexists; split; reflexivity | reflexivity].
Qed.

(** * Further properties of the code *)

(** ** [Schema._concat] and [Schema._split] *)

Lemma chunk_lengths (sizes : list nat) (values : list pyobj) :
  length values = sum sizes ->
  map (@length pyobj) (chunk values sizes) = sizes /\ concat (chunk values sizes) = values.
Proof.
  revert values. induction sizes as [|n sizes IH]; intros values H; simpl.
  - split; [reflexivity|]. destruct values; [reflexivity | discriminate].
  - rewrite sum_cons in H.
    destruct (IH (skipn n values)) as [Hl Hc]; [rewrite length_skipn; lia|].
    rewrite Hl, Hc, firstn_skipn, length_firstn. split; [f_equal; lia | reflexivity].
Qed.

Lemma _split_chunk (values : list pyobj) (sizes : list nat) :
  length values = sum sizes -> _split values sizes = Ok (chunk values sizes).
Proof.
  intros H. destruct (chunk_lengths sizes values H) as [Hl Hc].
  pose proof (_split_concat (chunk values sizes)) as E.
  rewrite Hl, Hc in E. exact E.
Qed.

(** X1.  [_split] undoes [_concat]: the tuples that were concatenated are
    found again from the concatenation and the recorded sizes. *)
Theorem split_undoes_concat (vs : list (list pyobj)) :
  _split (fst (_concat vs)) (snd (_concat vs)) = Ok vs.
Proof.
  rewrite _concat_spec. simpl. apply _split_concat.
Qed.

(** X2.  [_split] checks the total length only when [sizes] is not empty:
    with no size it returns the empty list whatever the values are; with
    sizes whose sum is not the number of values it raises [AssertionError];
    otherwise it returns one piece per size, of that length, and the pieces
    concatenated are the values. *)
Theorem split_checks_length (values : list pyobj) (sizes : list nat) :
  (sizes = [] -> _split values sizes = Ok [])
  /\ (sizes <> [] -> length values <> sum sizes ->
      _split values sizes = Raise AssertionError)
  /\ (length values = sum sizes ->
      exists pieces,
        _split values sizes = Ok pieces
        /\ map (@length pyobj) pieces = sizes
        /\ concat pieces = values).
Proof.
  split; [|split].
  - intros ->. reflexivity.
  - intros Hs Hl. unfold _split.
    destruct sizes as [|n sizes]; [congruence|]. simpl length.
    apply Nat.eqb_neq in Hl. rewrite Hl. reflexivity.
  - intros Hl. exists (chunk values sizes).
    split; [apply _split_chunk; exact Hl | apply chunk_lengths; exact Hl].
Qed.

(** ** Calling a schema on other values *)

Lemma ListSchema_call_bad_length call schemas sizes values :
  sizes <> [] -> length values <> sum sizes ->
  ListSchema_call call schemas sizes values = Raise AssertionError.
Proof.
  intros Hs Hl. unfold ListSchema_call.
  destruct (split_checks_length values sizes) as (_ & H & _).
  rewrite (H Hs Hl). reflexivity.
Qed.

(** X3.  A schema made for a container with at least one element refuses a
    tuple of another length: [schema(values)] raises [AssertionError] when
    the number of values is not the number of flattened values the schema was
    made with. *)
Theorem schema_refuses_other_length (obj : pyobj) (res values : list pyobj)
    (sch : Schema) :
  wf obj = true ->
  flatten_to_tuple obj = Ok (res, sch) ->
  sizes_of sch <> [] ->
  length values <> length res ->
  Schema_call sch values = Raise AssertionError.
Proof.
  intros Hwf H Hs Hl.
  destruct (schema_sizes_gen _ Hwf H) as (_ & Hw & _).
  destruct sch as [|ms ns|ms ns|ms ns ks]; simpl in Hs; [congruence| | |];
    unfold width in Hw; simpl in Hw; simpl Schema_call;
    rewrite ListSchema_call_bad_length; try reflexivity; try assumption; congruence.
Qed.

Lemma schema_refuses_other_length_witness :
  Schema_call (ListSchema [IdentitySchema; IdentitySchema] [1; 1])
              [PAtom (ATensor 0)] = Raise AssertionError.
Proof.
  apply (@schema_refuses_other_length
           (PList [PAtom (AInt 1); PAtom (AInt 2)])
           [PAtom (AInt 1); PAtom (AInt 2)] [PAtom (ATensor 0)]
           (ListSchema [IdentitySchema; IdentitySchema] [1; 1]));
    [reflexivity | reflexivity | discriminate | simpl; lia].
Defined.

Lemma sorted_of_sorted (l : list string) : StronglySorted str_le l -> sorted l = l.
Proof.
  intros H. apply strongly_sorted_unique;
    [apply sorted_strongly | exact H | apply sorted_perm].
Qed.

Lemma Forall2_of_combine {A B : Type} (R : A -> B -> Prop) (l : list A) (l' : list B) :
  length l = length l' ->
  (forall a b, In (a, b) (combine l l') -> R a b) -> Forall2 R l l'.
Proof.
  revert l'. induction l as [|a l IH]; intros [|b l'] Hlen H; simpl in *;
    try discriminate; constructor.
  - apply H. left. reflexivity.
  - apply IH; [lia|]. intros. apply H. right. assumption.
Qed.

Lemma in_combine_KStr (keys : list string) (os : list pyobj) k o :
  In (k, o) (combine keys os) -> In (KStr k, o) (combine (map KStr keys) os).
Proof.
  revert os. induction keys as [|k' keys IH]; intros [|o' os]; simpl; try tauto.
  intros [H|H]; [left; congruence | right; apply IH; exact H].
Qed.

Lemma key_strs_combine (keys : list string) (os : list pyobj) :
  length keys = length os -> key_strs (combine (map KStr keys) os) = keys.
Proof.
  revert os. induction keys as [|k keys IH]; intros [|o os] H; simpl in *;
    try discriminate; [reflexivity|].
  f_equal. apply IH. lia.
Qed.

Lemma str_keys_combine (keys : list string) (os : list pyobj) :
  existsb (fun k => negb (is_str_key k)) (map fst (combine (map KStr keys) os)) = false.
Proof.
  revert os. induction keys as [|k keys IH]; intros [|o os]; simpl; try reflexivity.
  apply IH.
Qed.

Lemma chunk_length (sizes : list nat) (values : list pyobj) :
  length (chunk values sizes) = length sizes.
Proof.
  revert values. induction sizes as [|n sizes IH]; intros values; simpl;
    [reflexivity | rewrite IH; reflexivity].
Qed.

Lemma Forall_firstn_skipn {A : Type} (P : A -> Prop) (n : nat) (l : list A) :
  Forall P l -> Forall P (firstn n l) /\ Forall P (skipn n l).
Proof.
  intros H. rewrite <- (firstn_skipn n l) in H. apply Forall_app in H. exact H.
Qed.

Lemma reuse_children (vs : list pyobj) (rs : list (list pyobj * Schema)) :
  Forall2 (fun v r => flatten_to_tuple v = Ok r) vs rs ->
  Forall rebuilds_alike vs ->
  forall values,
    length values = sum (map (@length pyobj) (map fst rs)) ->
    Forall (fun x => is_leaf x = true) values ->
    exists os,
      collect (call_zip Schema_call (map snd rs)
                        (chunk values (map (@length pyobj) (map fst rs)))) = Ok os
      /\ collect (map flatten_to_tuple os)
         = Ok (combine (chunk values (map (@length pyobj) (map fst rs))) (map snd rs)).
Proof.
  intros H2 IH. induction H2 as [|v [r s] vs rs Hv _ IHrs]; intros values Hlen Hleaf;
    simpl.
  - exists []. split; reflexivity.
  - inversion IH as [|? ? Hhead Htail]; subst. simpl in Hlen. rewrite sum_cons in Hlen.
    destruct (Forall_firstn_skipn (length r) Hleaf) as [Hf Hs].
    destruct (Hhead r s Hv (firstn (length r) values)) as (o & Ho & Hfo);
      [rewrite length_firstn; lia | exact Hf |].
    destruct (IHrs Htail (skipn (length r) values)) as (os & Hos & Hfos);
      [rewrite length_skipn; lia | exact Hs |].
    exists (o :: os). rewrite Ho, Hos. simpl. rewrite Hfo, Hfos. simpl.
    split; reflexivity.
Qed.

Lemma reuse_list cls (vs : list pyobj) (rs : list (list pyobj * Schema)) values :
  Forall2 (fun v r => flatten_to_tuple v = Ok r) vs rs ->
  Forall rebuilds_alike vs ->
  length values = length (concat (map fst rs)) ->
  Forall (fun x => is_leaf x = true) values ->
  exists os,
    ListSchema_call Schema_call (map snd rs) (map (@length pyobj) (map fst rs)) values
    = Ok os
    /\ length os = length rs
    /\ ListSchema_flatten cls (map flatten_to_tuple os)
       = Ok (values, cls (map snd rs) (map (@length pyobj) (map fst rs))).
Proof.
  intros H2 IH Hlen Hleaf. rewrite <- sum_lengths_concat in Hlen.
  destruct (reuse_children H2 IH Hlen Hleaf) as (os & Hos & Hfos).
  exists os. unfold ListSchema_call. rewrite (_split_chunk _ _ Hlen). simpl bind.
  rewrite chunk_length, !length_map, Nat.eqb_refl. simpl negb. cbv iota.
  destruct (chunk_lengths _ values Hlen) as [Hl Hc].
  assert (Hcl : length (chunk values (map (@length pyobj) (map fst rs)))
                = length (map snd rs))
    by (rewrite chunk_length, !length_map; reflexivity).
  split; [exact Hos|]. split.
  - apply collect_ok_Forall2, Forall2_length in Hfos.
    rewrite Hfos, length_combine, Hcl, Nat.min_id, length_map. reflexivity.
  - apply ListSchema_flatten_ok. eexists. split; [exact Hfos|].
    rewrite (map_fst_combine _ _ Hcl).
    assert (Hsnd : forall (A B : Type) (l : list A) (l' : list B),
               length l = length l' -> map snd (combine l l') = l').
    { clear. intros A B l. induction l as [|a l IHl]; intros [|b l'] H; simpl in *;
        try discriminate; [reflexivity|]. f_equal. apply IHl. lia. }
    rewrite (Hsnd _ _ _ _ Hcl), Hl, Hc. split; reflexivity.
Qed.

Lemma schema_reuse_gen obj : wf obj = true -> rebuilds_alike obj.
Proof.
  induction obj as [a | items IH | items IH | d IH] using pyobj_nested_ind;
    simpl wf; intros Hwf r s H values Hlen Hleaf.
  - rewrite flatten_PAtom in H. injection H as <- <-.
    destruct values as [|v [|v' values]]; simpl in Hlen; try discriminate.
    inversion Hleaf as [|? ? Hv _]; subst.
    exists v. split; [reflexivity|].
    destruct v; try discriminate. reflexivity.
  - rewrite flatten_PList in H. apply ListSchema_flatten_ok in H as (rs & Hrs & -> & ->).
    apply collect_ok_Forall2 in Hrs.
    destruct (@reuse_list ListSchema items rs values Hrs) as (os & Hos & _ & Hf);
      try assumption.
    { rewrite forallb_forall in Hwf. rewrite Forall_forall in IH |- *.
      intros x Hx. apply IH; [exact Hx | apply Hwf; exact Hx]. }
    exists (PList os). simpl Schema_call. rewrite Hos. split; [reflexivity|].
    rewrite flatten_PList. exact Hf.
  - rewrite flatten_PTuple in H. apply ListSchema_flatten_ok in H as (rs & Hrs & -> & ->).
    apply collect_ok_Forall2 in Hrs.
    destruct (@reuse_list TupleSchema items rs values Hrs) as (os & Hos & _ & Hf);
      try assumption.
    { rewrite forallb_forall in Hwf. rewrite Forall_forall in IH |- *.
      intros x Hx. apply IH; [exact Hx | apply Hwf; exact Hx]. }
    exists (PTuple os). simpl Schema_call. rewrite Hos. split; [reflexivity|].
    rewrite flatten_PTuple. exact Hf.
  - apply andb_true_iff in Hwf as [Huniq Hwf]. apply keys_unique_NoDup in Huniq.
    destruct (existsb (fun k => negb (is_str_key k)) (map fst d)) eqn:Hstr.
    { rewrite flatten_PDict in H. unfold DictSchema_flatten in H. rewrite Hstr in H.
      discriminate. }
    destruct (sorted_values_exist d) as (vs & Hvs).
    rewrite (flatten_dict_as_list _ Hstr Hvs) in H.
    apply ListSchema_flatten_ok in H as (rs & Hrs & -> & ->).
    apply collect_ok_Forall2 in Hrs.
    set (keys := sorted (key_strs d)) in *.
    destruct (@reuse_list (fun ms ns => DictSchema ms ns keys) vs rs values Hrs)
      as (os & Hos & Hlos & Hf); try assumption.
    { apply (sorted_values_in rebuilds_alike Hvs).
      rewrite forallb_forall in Hwf. rewrite Forall_forall in IH |- *.
      intros kv Hkv. apply IH; [exact Hkv | apply Hwf; exact Hkv]. }
    assert (Hklen : length keys = length os).
    { apply Forall2_length in Hvs, Hrs. congruence. }
    assert (Hnd : NoDup (map fst (combine (map KStr keys) os))).
    { rewrite map_fst_combine by (rewrite length_map; exact Hklen).
      apply Finite.Injective_map_NoDup; [intros x y E; congruence|].
      apply (Permutation_NoDup (Permutation_sym (sorted_perm _))).
      apply key_strs_NoDup. exact Huniq. }
    eexists. simpl Schema_call. rewrite Hos. simpl bind. split; [reflexivity|].
    rewrite (dict_of_pairs_distinct _ Hnd).
    assert (Hkeys : sorted (key_strs (combine (map KStr keys) os)) = keys).
    { rewrite (key_strs_combine _ _ Hklen). apply sorted_of_sorted.
      apply sorted_strongly. }
    rewrite (@flatten_dict_as_list _ os (str_keys_combine keys os)).
    + rewrite Hkeys. exact Hf.
    + rewrite Hkeys. apply Forall2_of_combine; [exact Hklen|].
      intros k o Hin. apply in_getitem; [exact Hnd|].
      apply in_combine_KStr. exact Hin.
Qed.

(** X4.  A schema serves for other values of the same number: for a schema
    returned by [flatten_to_tuple] and any tuple of leaves as long as the
    flattened one, [schema(values)] returns an object, and flattening that
    object gives back the same values and the same schema. *)
Theorem schema_rebuilds_same_shape (obj : pyobj) (res values : list pyobj)
    (sch : Schema) :
  wf obj = true ->
  flatten_to_tuple obj = Ok (res, sch) ->
  length values = length res ->
  Forall (fun x => is_leaf x = true) values ->
  exists obj',
    Schema_call sch values = Ok obj' /\ flatten_to_tuple obj' = Ok (values, sch).
Proof.
  intros Hwf H Hlen Hleaf. exact (schema_reuse_gen _ Hwf H Hlen Hleaf).
Qed.

Lemma schema_rebuilds_same_shape_witness :
  exists obj',
    Schema_call (DictSchema [ListSchema [IdentitySchema] [1]; IdentitySchema]
                            [1; 1] ["a"; "b"]%string)
                [PAtom (ATensor 7); PAtom (ATensor 8)] = Ok obj'
    /\ flatten_to_tuple obj'
       = Ok ([PAtom (ATensor 7); PAtom (ATensor 8)],
             DictSchema [ListSchema [IdentitySchema] [1]; IdentitySchema]
                        [1; 1] ["a"; "b"]%string).
Proof.
  apply (@schema_rebuilds_same_shape
           (PDict [(KStr "b", PAtom (ATensor 1)); (KStr "a", PList [PAtom (ATensor 2)])])
           [PAtom (ATensor 2); PAtom (ATensor 1)]);
    [reflexivity | reflexivity | reflexivity | repeat constructor].
Defined.

(** X5.  The mapping a schema rebuilds has its keys in sorted order, whatever
    the insertion order of the mapping that was flattened. *)
Theorem rebuilt_mapping_sorted (d : list (pykey * pyobj)) :
  wf (PDict d) = true -> str_keyed (PDict d) = true ->
  exists res sch d',
    flatten_to_tuple (PDict d) = Ok (res, sch)
    /\ Schema_call sch res = Ok (PDict d')
    /\ map fst d' = map KStr (sorted (key_strs d)).
Proof.
  intros Hwf Hstr. rewrite str_keyed_has_nonstr in Hstr. apply negb_true_iff in Hstr.
  simpl in Hwf, Hstr. apply andb_true_iff in Hwf as [Huniq Hwf].
  apply keys_unique_NoDup in Huniq. apply orb_false_iff in Hstr as [Htop Hnested].
  rewrite <- (existsb_map_fst (fun k => negb (is_str_key k))) in Htop.
  destruct (sorted_values_exist d) as (vs & Hvs).
  assert (Hvwf : Forall (fun v => wf v = true) vs).
  { apply (sorted_values_in (fun v => wf v = true) Hvs).
    apply Forall_forall. apply forallb_forall. exact Hwf. }
  assert (Hvstr : Forall (fun v => has_nonstr_key v = false) vs).
  { apply (sorted_values_in (fun v => has_nonstr_key v = false) Hvs).
    apply Forall_forall. intros kv Hkv. apply not_true_iff_false. intros Hx.
    apply not_true_iff_false in Hnested. apply Hnested.
    apply existsb_exists. eauto. }
  destruct (@Forall2_exists _ _ (fun v r => flatten_to_tuple v = Ok r) vs) as (rs & Hrs).
  { intros v Hv. rewrite Forall_forall in Hvstr.
    exact (str_keyed_flattens _ (Hvstr v Hv)). }
  destruct (@rebuild_children vs rs Hrs) as (os & Hos & Hall).
  { rewrite Forall_forall in Hvwf |- *. intros v Hv r s. apply roundtrip_gen. auto. }
  do 3 eexists. rewrite (flatten_dict_as_list _ Htop Hvs). split.
  - apply ListSchema_flatten_ok. exists rs.
    split; [apply collect_ok_Forall2; exact Hrs | split; reflexivity].
  - simpl Schema_call. rewrite Hos. simpl bind.
    assert (Hlen : length (map KStr (sorted (key_strs d))) = length os).
    { rewrite length_map. apply Forall2_length in Hvs, Hall. congruence. }
    assert (Hnd : NoDup (map fst (combine (map KStr (sorted (key_strs d))) os))).
    { rewrite (map_fst_combine _ _ Hlen).
      apply Finite.Injective_map_NoDup; [intros x y E; congruence|].
      apply (Permutation_NoDup (Permutation_sym (sorted_perm _))).
      apply key_strs_NoDup. exact Huniq. }
    rewrite (dict_of_pairs_distinct _ Hnd). split; [reflexivity|].
    apply map_fst_combine. exact Hlen.
Qed.

Lemma rebuilt_mapping_sorted_witness :
  exists res sch d',
    flatten_to_tuple (PDict [(KStr "z", PAtom (AInt 1)); (KStr "a", PAtom (AInt 2))])
    = Ok (res, sch)
    /\ Schema_call sch res = Ok (PDict d')
    /\ map fst d'
       = map KStr (sorted (key_strs [(KStr "z", PAtom (AInt 1));
                                     (KStr "a", PAtom (AInt 2))])).
Proof.
  apply rebuilt_mapping_sorted; reflexivity.
Defined.

(** ** Equality of values and of schemas *)

Lemma dict_sub_intro (eqb : pyobj -> pyobj -> bool) d1 d2 :
  (forall k v, In (k, v) d1 -> exists v', lookup d2 k = Some v' /\ eqb v v' = true) ->
  dict_sub eqb d1 d2 = true.
Proof.
  induction d1 as [|[k v] d1 IH]; simpl; intros H; [reflexivity|].
  destruct (H k v (or_introl eq_refl)) as (v' & -> & ->). simpl.
  apply IH. intros. apply H. right. assumption.
Qed.

Lemma py_eq_refl obj : wf obj = true -> py_eq obj obj = true.
Proof.
  induction obj as [a | items IH | items IH | d IH] using pyobj_nested_ind;
    simpl wf; intros Hwf; simpl py_eq.
  - unfold atom_eqb. destruct (atom_eq_dec a a); congruence.
  - apply list_eqb_Forall2. rewrite forallb_forall in Hwf.
    induction IH as [|x l Hx _ IHl]; constructor.
    + apply Hx, Hwf. left. reflexivity.
    + apply IHl. intros. apply Hwf. right. assumption.
  - apply list_eqb_Forall2. rewrite forallb_forall in Hwf.
    induction IH as [|x l Hx _ IHl]; constructor.
    + apply Hx, Hwf. left. reflexivity.
    + apply IHl. intros. apply Hwf. right. assumption.
  - apply andb_true_iff in Hwf as [Huniq Hwf]. apply keys_unique_NoDup in Huniq.
    rewrite Nat.eqb_refl. simpl. apply dict_sub_intro. intros k v Hin.
    exists v. split.
    + apply getitem_lookup, in_getitem; assumption.
    + rewrite Forall_forall in IH. rewrite forallb_forall in Hwf.
      exact (IH _ Hin (Hwf _ Hin)).
Qed.

Lemma Schema_nested_ind (P : Schema -> Prop) :
  P IdentitySchema ->
  (forall ms ns, Forall P ms -> P (ListSchema ms ns)) ->
  (forall ms ns, Forall P ms -> P (TupleSchema ms ns)) ->
  (forall ms ns ks, Forall P ms -> P (DictSchema ms ns ks)) ->
  forall s, P s.
Proof.
  intros Hi Hl Ht Hd.
  fix IH 1.
  intros [|ms ns|ms ns|ms ns ks].
  - exact Hi.
  - apply Hl. induction ms as [|x xs IHxs]; constructor; [apply IH | exact IHxs].
  - apply Ht. induction ms as [|x xs IHxs]; constructor; [apply IH | exact IHxs].
  - apply Hd. induction ms as [|x xs IHxs]; constructor; [apply IH | exact IHxs].
Qed.

Lemma nat_list_eqb_eq (l1 l2 : list nat) : nat_list_eqb l1 l2 = true <-> l1 = l2.
Proof.
  unfold nat_list_eqb. destruct (list_eq_dec Nat.eq_dec l1 l2); split; congruence.
Qed.

Lemma keys_eqb_eq (l1 l2 : list string) : keys_eqb l1 l2 = true <-> l1 = l2.
Proof.
  unfold keys_eqb. destruct (list_eq_dec string_dec l1 l2); split; congruence.
Qed.

Lemma schemas_eqb_eq (ms1 : list Schema) :
  Forall (fun a => forall b, Schema_eqb a b = true <-> a = b) ms1 ->
  forall ms2, schemas_eqb Schema_eqb ms1 ms2 = true <-> ms1 = ms2.
Proof.
  intros IH. induction IH as [|x l Hx _ IHl]; intros [|y l2]; simpl.
  - tauto.
  - split; discriminate.
  - split; discriminate.
  - rewrite andb_true_iff, Hx, IHl. split; [intros [-> ->]; reflexivity|].
    intros E. injection E as -> ->. tauto.
Qed.

Lemma Schema_eqb_eq (a b : Schema) : Schema_eqb a b = true <-> a = b.
Proof.
  revert b. induction a as [|ms ns IH|ms ns IH|ms ns ks IH] using Schema_nested_ind;
    intros [|ms2 ns2|ms2 ns2|ms2 ns2 ks2]; simpl; try (split; [discriminate|congruence]).
  - tauto.
  - rewrite andb_true_iff, (schemas_eqb_eq IH), nat_list_eqb_eq.
    split; [intros [-> ->]; reflexivity | intros E; injection E as -> ->; tauto].
  - rewrite andb_true_iff, (schemas_eqb_eq IH), nat_list_eqb_eq.
    split; [intros [-> ->]; reflexivity | intros E; injection E as -> ->; tauto].
  - rewrite !andb_true_iff, (schemas_eqb_eq IH), nat_list_eqb_eq, keys_eqb_eq.
    split; [intros [[-> ->] ->]; reflexivity | intros E; injection E as -> -> ->; tauto].
Qed.

(** ** [TracingAdapter.forward] *)

Lemma filter_shorter {A : Type} (p : A -> bool) (l : list A) :
  (length (filter p l) <? length l) = existsb (fun x => negb (p x)) l.
Proof.
  assert (Hle : forall l', length (filter p l') <= length l').
  { intros l'. induction l' as [|y l' IHl']; simpl; [lia|].
    destruct (p y); simpl; lia. }
  induction l as [|x l IH]; simpl; [reflexivity|].
  destruct (p x); simpl.
  - exact IH.
  - apply Nat.ltb_lt. specialize (Hle l). lia.
Qed.

Lemma init_without_schema root steps inputs0 self :
  TracingAdapter_init root steps inputs0 true = Ok self ->
  inputs_schema self = None ->
  exists flat schema,
    flatten_to_tuple (as_tuple inputs0) = Ok (flat, schema)
    /\ flattened_inputs self = filter is_tensor flat
    /\ inputs self = as_tuple inputs0.
Proof.
  unfold TracingAdapter_init.
  destruct (flatten_to_tuple (as_tuple inputs0)) as [[flat schema]|e]; simpl bind;
    [|discriminate].
  destruct (forallb is_tensor flat); intros H Hn; injection H as <-.
  - discriminate.
  - exists flat, schema. repeat split.
Qed.

Lemma init_with_schema root steps inputs0 allow self schema :
  TracingAdapter_init root steps inputs0 allow = Ok self ->
  inputs_schema self = Some schema ->
  flatten_to_tuple (as_tuple inputs0) = Ok (flattened_inputs self, schema).
Proof.
  unfold TracingAdapter_init.
  destruct (flatten_to_tuple (as_tuple inputs0)) as [[flat schema']|e]; simpl bind;
    [|discriminate].
  destruct (forallb is_tensor flat).
  - intros H Hs. injection H as <-. simpl in Hs |- *. congruence.
  - destruct allow.
    + intros H Hs. injection H as <-. discriminate.
    + destruct (check_tensors flat); simpl; intros H Hs; [|discriminate].
      injection H as <-. simpl in Hs |- *. congruence.
Qed.

Lemma wf_as_tuple inputs0 : wf inputs0 = true -> wf (as_tuple inputs0) = true.
Proof.
  intros H. destruct inputs0; simpl in *; rewrite ?H; reflexivity.
Qed.

Lemma same_tensors (py_is : pyobj -> pyobj -> bool) (l : list pyobj) :
  (forall i, py_is (PAtom (ATensor i)) (PAtom (ATensor i)) = true) ->
  Forall (fun x => is_tensor x = true) l ->
  existsb (fun xy => negb (py_is (fst xy) (snd xy))) (combine l l) = false.
Proof.
  intros Hrefl Hall. induction Hall as [|x l Hx _ IH]; simpl; [reflexivity|].
  rewrite IH, orb_false_r.
  destruct x as [[| | | |i|]| | |]; try discriminate. rewrite Hrefl. reflexivity.
Qed.

Lemma other_tensors (py_is : pyobj -> pyobj -> bool) (l args : list pyobj) :
  (forall x i, py_is x (PAtom (ATensor i)) = true -> x = PAtom (ATensor i)) ->
  Forall (fun x => is_tensor x = true) l ->
  length args = length l ->
  existsb (fun xy => negb (py_is (fst xy) (snd xy))) (combine args l) = false ->
  args = l.
Proof.
  intros Hid Hall. revert args. induction Hall as [|y l Hy _ IH];
    intros [|x args] Hlen H; simpl in *; try discriminate; [reflexivity|].
  apply orb_false_iff in H as [Hx Hrest]. apply negb_false_iff in Hx.
  destruct y as [[| | | |i|]| | |]; try discriminate.
  apply Hid in Hx. subst x. f_equal. apply IH; [lia | exact Hrest].
Qed.

(** X6.  An adapter rebuilds its own inputs: on the flat inputs recorded by
    the constructor, [forward] calls the model on an object equal to the
    inputs the constructor was given (as a tuple), with or without a
    schema. *)
Theorem forward_own_inputs (py_is : pyobj -> pyobj -> bool) (root : nnModule)
    (steps : nat) (inputs0 : pyobj) (allow : bool) (self : TracingAdapter) :
  (forall i, py_is (PAtom (ATensor i)) (PAtom (ATensor i)) = true) ->
  wf inputs0 = true ->
  TracingAdapter_init root steps inputs0 allow = Ok self ->
  exists x,
    forward_inputs py_is self (flattened_inputs self) = Ok x
    /\ py_eq x (as_tuple inputs0) = true.
Proof.
  intros Hrefl Hwf Hinit. apply wf_as_tuple in Hwf. unfold forward_inputs.
  destruct (inputs_schema self) as [schema|] eqn:Hs.
  - pose proof (init_with_schema _ _ _ _ Hinit Hs) as Hflat.
    exact (roundtrip_gen _ Hwf Hflat).
  - assert (allow = true) as ->.
    { unfold TracingAdapter_init in Hinit.
      destruct (flatten_to_tuple (as_tuple inputs0)) as [[flat schema]|e];
        simpl bind in Hinit; [|discriminate].
      destruct (forallb is_tensor flat); [injection Hinit as <-; discriminate|].
      destruct allow; [reflexivity|].
      destruct (check_tensors flat); simpl in Hinit; [|discriminate].
      injection Hinit as <-. discriminate. }
    destruct (init_without_schema _ _ _ Hinit Hs) as (flat & schema & _ & Hfi & Hin).
    rewrite Nat.eqb_refl. simpl negb. rewrite same_tensors.
    + simpl. exists (inputs self). split; [reflexivity|].
      rewrite Hin. apply py_eq_refl. exact Hwf.
    + exact Hrefl.
    + rewrite Hfi. apply Forall_forall. intros x Hx.
      apply filter_In in Hx. tauto.
Qed.

Lemma forward_own_inputs_witness :
  exists x,
    forward_inputs (fun a b => py_eq a b)
      {| adapter_training := true; model := 0;
         inputs := PTuple [PDict [(KStr "image", PAtom (ATensor 3))]];
         allow_non_tensor := false;
         flattened_inputs := [PAtom (ATensor 3)];
         inputs_schema :=
           Some (TupleSchema [DictSchema [IdentitySchema] [1] ["image"]%string] [1]);
         outputs_schema := None |}
      [PAtom (ATensor 3)] = Ok x
    /\ py_eq x (as_tuple (PDict [(KStr "image", PAtom (ATensor 3))])) = true.
Proof.
  apply (@forward_own_inputs (fun a b => py_eq a b) (Plain true []) 0
           (PDict [(KStr "image", PAtom (ATensor 3))]) false).
  - intros i. simpl. unfold atom_eqb.
    destruct (atom_eq_dec (ATensor i) (ATensor i)); congruence.
  - reflexivity.
  - reflexivity.
Defined.

(** X7.  An adapter without an inputs schema does not accept other inputs:
    when the constructor has dropped non-tensor inputs, [forward] on any
    arguments but the recorded flat inputs themselves raises [ValueError],
    before the model is called, and leaves the adapter as it was. *)
Theorem forward_refuses_other_inputs (call_model : pyobj -> result pyobj)
    (py_is : pyobj -> pyobj -> bool) (root : nnModule) (steps : nat)
    (inputs0 : pyobj) (self : TracingAdapter) (args : list pyobj) :
  (forall x i, py_is x (PAtom (ATensor i)) = true -> x = PAtom (ATensor i)) ->
  TracingAdapter_init root steps inputs0 true = Ok self ->
  inputs_schema self = None ->
  args <> flattened_inputs self ->
  TracingAdapter_forward call_model py_is self args = (Raise ValueError, self).
Proof.
  intros Hid Hinit Hs Hneq.
  destruct (init_without_schema _ _ _ Hinit Hs) as (flat & schema & _ & Hfi & _).
  unfold TracingAdapter_forward, forward_inputs. rewrite Hs.
  destruct (length args =? length (flattened_inputs self)) eqn:Hlen; simpl;
    [|reflexivity].
  destruct (existsb _ (combine args (flattened_inputs self))) eqn:Hex; [reflexivity|].
  exfalso. apply Hneq. apply Nat.eqb_eq in Hlen.
  apply (other_tensors py_is); try assumption.
  rewrite Hfi. apply Forall_forall. intros x Hx. apply filter_In in Hx. tauto.
Qed.

Lemma forward_refuses_other_inputs_witness :
  TracingAdapter_forward (fun x => Ok x) (fun a b => py_eq a b)
    {| adapter_training := true; model := 0;
       inputs := PTuple [PList [PAtom (ATensor 1); PAtom (AInt 5)]];
       allow_non_tensor := true;
       flattened_inputs := [PAtom (ATensor 1)];
       inputs_schema := None; outputs_schema := None |}
    [PAtom (ATensor 2)]
  = (Raise ValueError,
     {| adapter_training := true; model := 0;
        inputs := PTuple [PList [PAtom (ATensor 1); PAtom (AInt 5)]];
        allow_non_tensor := true;
        flattened_inputs := [PAtom (ATensor 1)];
        inputs_schema := None; outputs_schema := None |}).
Proof.
  apply (@forward_refuses_other_inputs (fun x => Ok x) (fun a b => py_eq a b)
           (Plain true []) 0 (PList [PAtom (ATensor 1); PAtom (AInt 5)])).
  - intros x i H. destruct x as [a| | |]; simpl in H; try discriminate.
    unfold atom_eqb in H. destruct (atom_eq_dec a (ATensor i)); congruence.
  - reflexivity.
  - reflexivity.
  - discriminate.
Defined.

(** X8.  What [forward] returns is rebuilt by the schema it leaves: when
    [forward] returns and the adapter then has an outputs schema, that
    schema applied to the returned flat outputs gives an object equal to the
    outputs of the model. *)
Theorem forward_outputs_rebuilt (call_model : pyobj -> result pyobj)
    (py_is : pyobj -> pyobj -> bool) (self self' : TracingAdapter)
    (args flat_out : list pyobj) (x outputs : pyobj) (so : Schema) :
  forward_inputs py_is self args = Ok x ->
  call_model x = Ok outputs ->
  wf outputs = true ->
  TracingAdapter_forward call_model py_is self args = (Ok flat_out, self') ->
  outputs_schema self' = Some so ->
  exists o, Schema_call so flat_out = Ok o /\ py_eq o outputs = true.
Proof.
  intros Hin Hcall Hwf Hfwd Hso.
  unfold TracingAdapter_forward in Hfwd. rewrite Hin, Hcall in Hfwd.
  unfold forward_outputs in Hfwd.
  destruct (flatten_to_tuple outputs) as [[fo schema]|e] eqn:Hflat; [|discriminate].
  destruct (length (filter is_tensor fo) <? length fo).
  - destruct (allow_non_tensor self); [|discriminate].
    injection Hfwd as <- <-. discriminate.
  - destruct (outputs_schema self) as [recorded|] eqn:Hrec.
    + destruct (Schema_eqb recorded schema) eqn:E; [|discriminate].
      apply Schema_eqb_eq in E. injection Hfwd as <- <-.
      rewrite Hrec in Hso. injection Hso as <-. subst recorded.
      exact (roundtrip_gen _ Hwf Hflat).
    + injection Hfwd as <- <-. simpl in Hso. injection Hso as <-.
      exact (roundtrip_gen _ Hwf Hflat).
Qed.

Lemma forward_outputs_rebuilt_witness :
  exists o,
    Schema_call (DictSchema [IdentitySchema; IdentitySchema] [1; 1]
                            ["lanes"; "seg"]%string)
                [PAtom (ATensor 1); PAtom (ATensor 2)] = Ok o
    /\ py_eq o (PDict [(KStr "seg", PAtom (ATensor 2));
                       (KStr "lanes", PAtom (ATensor 1))]) = true.
Proof.
  apply (@forward_outputs_rebuilt
           (fun _ => Ok (PDict [(KStr "seg", PAtom (ATensor 2));
                                (KStr "lanes", PAtom (ATensor 1))]))
           (fun a b => py_eq a b)
           {| adapter_training := true; model := 0;
              inputs := PTuple [PAtom (ATensor 0)];
              allow_non_tensor := false;
              flattened_inputs := [PAtom (ATensor 0)];
              inputs_schema := Some (TupleSchema [IdentitySchema] [1]);
              outputs_schema := None |}
           {| adapter_training := true; model := 0;
              inputs := PTuple [PAtom (ATensor 0)];
              allow_non_tensor := false;
              flattened_inputs := [PAtom (ATensor 0)];
              inputs_schema := Some (TupleSchema [IdentitySchema] [1]);
              outputs_schema :=
                Some (DictSchema [IdentitySchema; IdentitySchema] [1; 1]
                                 ["lanes"; "seg"]%string) |}
           [PAtom (ATensor 0)] [PAtom (ATensor 1); PAtom (ATensor 2)]
           (PTuple [PAtom (ATensor 0)]));
    reflexivity.
Defined.

(** X9.  Once an outputs schema is recorded, [forward] accepts only outputs
    of that structure: with tensor outputs whose schema is the recorded one
    it returns them and changes nothing; with tensor outputs of another
    structure it raises [AssertionError]. *)
Theorem forward_checks_structure (call_model : pyobj -> result pyobj)
    (py_is : pyobj -> pyobj -> bool) (self : TracingAdapter)
    (args fo : list pyobj) (x outputs : pyobj) (recorded schema : Schema) :
  outputs_schema self = Some recorded ->
  forward_inputs py_is self args = Ok x ->
  call_model x = Ok outputs ->
  flatten_to_tuple outputs = Ok (fo, schema) ->
  forallb is_tensor fo = true ->
  (schema = recorded ->
   TracingAdapter_forward call_model py_is self args = (Ok fo, self))
  /\ (schema <> recorded ->
      TracingAdapter_forward call_model py_is self args = (Raise AssertionError, self)).
Proof.
  intros Hrec Hin Hcall Hflat Hall.
  unfold TracingAdapter_forward, forward_outputs.
  rewrite Hin, Hcall, Hflat, filter_shorter, existsb_negb_forallb, Hall, Hrec.
  simpl. split; intros H.
  - subst. replace (Schema_eqb recorded recorded) with true; [reflexivity|].
    symmetry. apply Schema_eqb_eq. reflexivity.
  - destruct (Schema_eqb recorded schema) eqn:E; [|reflexivity].
    apply Schema_eqb_eq in E. congruence.
Qed.

Lemma forward_checks_structure_witness :
  TracingAdapter_forward (fun _ => Ok (PList [PAtom (ATensor 1); PAtom (ATensor 2)]))
    (fun a b => py_eq a b)
    (one_tensor_adapter false (Some (ListSchema [IdentitySchema] [1])))
    [PAtom (ATensor 0)]
  = (Raise AssertionError,
     one_tensor_adapter false (Some (ListSchema [IdentitySchema] [1]))).
Proof.
  refine (proj2 (@forward_checks_structure
           (fun _ => Ok (PList [PAtom (ATensor 1); PAtom (ATensor 2)]))
           (fun a b => py_eq a b)
           (one_tensor_adapter false (Some (ListSchema [IdentitySchema] [1])))
           [PAtom (ATensor 0)]
           [PAtom (ATensor 1); PAtom (ATensor 2)] (PTuple [PAtom (ATensor 0)])
           (PList [PAtom (ATensor 1); PAtom (ATensor 2)])
           (ListSchema [IdentitySchema] [1])
           (ListSchema [IdentitySchema; IdentitySchema] [1; 1])
           eq_refl eq_refl eq_refl eq_refl eq_refl) _).
  discriminate.
Defined.

(** X10.  Outputs that are not all tensors: with [allow_non_tensor] unset
    [forward] raises [ValueError] and changes nothing; with it set, [forward]
    returns the tensors only and the outputs schema of the adapter becomes
    [None], also when one was recorded before. *)
Theorem forward_non_tensor_outputs (call_model : pyobj -> result pyobj)
    (py_is : pyobj -> pyobj -> bool) (self : TracingAdapter)
    (args fo : list pyobj) (x outputs : pyobj) (schema : Schema) :
  forward_inputs py_is self args = Ok x ->
  call_model x = Ok outputs ->
  flatten_to_tuple outputs = Ok (fo, schema) ->
  existsb (fun v => negb (is_tensor v)) fo = true ->
  TracingAdapter_forward call_model py_is self args
  = if allow_non_tensor self
    then (Ok (filter is_tensor fo), set_outputs_schema self None)
    else (Raise ValueError, self).
Proof.
  intros Hin Hcall Hflat Hex.
  unfold TracingAdapter_forward, forward_outputs.
  rewrite Hin, Hcall, Hflat, filter_shorter, Hex. reflexivity.
Qed.

Lemma forward_non_tensor_outputs_witness :
  TracingAdapter_forward (fun _ => Ok (PList [PAtom (ATensor 1); PAtom (AStr "lane")]))
    (fun a b => py_eq a b)
    (one_tensor_adapter true (Some (ListSchema [IdentitySchema] [1])))
    [PAtom (ATensor 0)]
  = (Ok [PAtom (ATensor 1)], one_tensor_adapter true None).
Proof.
  exact (@forward_non_tensor_outputs
           (fun _ => Ok (PList [PAtom (ATensor 1); PAtom (AStr "lane")]))
           (fun a b => py_eq a b)
           (one_tensor_adapter true (Some (ListSchema [IdentitySchema] [1])))
           [PAtom (ATensor 0)]
           [PAtom (ATensor 1); PAtom (AStr "lane")] (PTuple [PAtom (ATensor 0)])
           (PList [PAtom (ATensor 1); PAtom (AStr "lane")])
           (ListSchema [IdentitySchema; IdentitySchema] [1; 1])
           eq_refl eq_refl eq_refl eq_refl).
Defined.

(** ** The wrapper of a traced model *)

(** X11.  The wrapper has the interface of the model: when the traced model
    computes what [forward] computes, the arguments have the structure of the
    inputs the adapter was built with, and the outputs have the recorded
    structure, the wrapper applied to the arguments returns an object equal
    to what the model returns on (an object equal to) these arguments. *)
Theorem wrapper_same_interface (call_model : pyobj -> result pyobj)
    (py_is : pyobj -> pyobj -> bool) (self self' : TracingAdapter)
    (args flat flat_out : list pyobj) (x outputs : pyobj) (si so : Schema) :
  wf (PTuple args) = true ->
  flatten_to_tuple (PTuple args) = Ok (flat, si) ->
  inputs_schema self = Some si ->
  outputs_schema self = Some so ->
  allow_non_tensor self = false ->
  Schema_call si flat = Ok x ->
  call_model x = Ok outputs ->
  wf outputs = true ->
  TracingAdapter_forward call_model py_is self flat = (Ok flat_out, self') ->
  py_eq x (PTuple args) = true
  /\ exists o,
       wrapper_forward (fun a => fst (TracingAdapter_forward call_model py_is self a))
                       self args = Ok o
       /\ py_eq o outputs = true.
Proof.
  intros Hwf Hflat Hsi Hso Hallow Hx Hcall Hwfo Hfwd. split.
  - destruct (roundtrip_gen _ Hwf Hflat) as (o & Ho & Heq). congruence.
  - unfold wrapper_forward. rewrite Hflat. simpl bind. rewrite Hfwd. simpl bind.
    rewrite Hso.
    assert (Hin : forward_inputs py_is self flat = Ok x)
      by (unfold forward_inputs; rewrite Hsi; exact Hx).
    unfold TracingAdapter_forward in Hfwd. rewrite Hin, Hcall in Hfwd.
    unfold forward_outputs in Hfwd.
    destruct (flatten_to_tuple outputs) as [[fo schema]|e] eqn:Hfo; [|discriminate].
    rewrite Hallow, Hso in Hfwd.
    destruct (length (filter is_tensor fo) <? length fo); [discriminate|].
    destruct (Schema_eqb so schema) eqn:E; [|discriminate].
    apply Schema_eqb_eq in E. injection Hfwd as <- _. subst so.
    exact (roundtrip_gen _ Hwfo Hfo).
Qed.

Lemma wrapper_same_interface_witness :
  py_eq (PTuple [PAtom (ATensor 9)]) (PTuple [PAtom (ATensor 9)]) = true
  /\ exists o,
       wrapper_forward
         (fun a =>
            fst (TracingAdapter_forward
                   (fun _ => Ok (PList [PAtom (ATensor 1)])) (fun a b => py_eq a b)
                   (one_tensor_adapter false (Some (ListSchema [IdentitySchema] [1])))
                   a))
         (one_tensor_adapter false (Some (ListSchema [IdentitySchema] [1])))
         [PAtom (ATensor 9)] = Ok o
       /\ py_eq o (PList [PAtom (ATensor 1)]) = true.
Proof.
  exact (@wrapper_same_interface
           (fun _ => Ok (PList [PAtom (ATensor 1)])) (fun a b => py_eq a b)
           (one_tensor_adapter false (Some (ListSchema [IdentitySchema] [1])))
           (one_tensor_adapter false (Some (ListSchema [IdentitySchema] [1])))
           [PAtom (ATensor 9)] [PAtom (ATensor 9)] [PAtom (ATensor 1)]
           (PTuple [PAtom (ATensor 9)]) (PList [PAtom (ATensor 1)])
           (TupleSchema [IdentitySchema] [1]) (ListSchema [IdentitySchema] [1])
           eq_refl eq_refl eq_refl eq_refl eq_refl eq_refl eq_refl eq_refl eq_refl).
Defined.

(** ** Operator counting *)

Lemma nnModule_nested_ind (P : nnModule -> Prop) :
  (forall t children, Forall P children -> P (Plain t children)) ->
  (forall t inner, P inner -> P (DataParallel t inner)) ->
  forall m, P m.
Proof.
  intros Hp Hd.
  fix IH 1.
  intros [t children | t inner].
  - apply Hp. induction children as [|x xs IHxs]; constructor; [apply IH | exact IHxs].
  - apply Hd. apply IH.
Qed.

Lemma all_training_train (b : bool) (m : nnModule) : all_training b (train b m) = true.
Proof.
  induction m as [t children IH | t inner IH] using nnModule_nested_ind; simpl.
  - rewrite Bool.eqb_reflx. simpl. apply forallb_forall. intros x Hx.
    apply in_map_iff in Hx as (y & <- & Hy). rewrite Forall_forall in IH. auto.
  - rewrite Bool.eqb_reflx, IH. reflexivity.
Qed.

Lemma forallb_filter_id {A : Type} (p : A -> bool) (l : list A) :
  forallb p l = true -> filter p l = l.
Proof.
  induction l as [|x l IH]; simpl; [reflexivity|].
  destruct (p x); simpl; [intros H; f_equal; auto | discriminate].
Qed.

Lemma init_allowing root steps inputs0 flat schema :
  flatten_to_tuple (as_tuple inputs0) = Ok (flat, schema) ->
  exists w,
    TracingAdapter_init root steps inputs0 true = Ok w
    /\ model w = unwrap steps root
    /\ adapter_training w = true
    /\ flattened_inputs w = filter is_tensor flat.
Proof.
  intros H. unfold TracingAdapter_init. rewrite H. simpl bind.
  destruct (forallb is_tensor flat) eqn:E; eexists; split; try reflexivity;
    repeat split.
  simpl. symmetry. apply forallb_filter_id. exact E.
Qed.

Lemma init_strict_raises root steps inputs0 flat schema :
  flatten_to_tuple (as_tuple inputs0) = Ok (flat, schema) ->
  existsb (fun x => negb (is_tensor x)) flat = true ->
  TracingAdapter_init root steps inputs0 false = Raise ValueError.
Proof.
  intros H Hex. unfold TracingAdapter_init. rewrite H. simpl bind.
  rewrite check_tensors_spec. rewrite existsb_negb_forallb in Hex.
  apply negb_true_iff in Hex. rewrite Hex. reflexivity.
Qed.

Lemma leaves_as_tuple inputs0 : leaves (as_tuple inputs0) = leaves inputs0.
Proof.
  destruct inputs0; simpl; rewrite ?app_nil_r; reflexivity.
Qed.

Lemma str_keyed_as_tuple inputs0 :
  str_keyed inputs0 = true -> str_keyed (as_tuple inputs0) = true.
Proof.
  intros H. destruct inputs0; simpl in *; rewrite ?H; reflexivity.
Qed.

(** X12.  [flop_count_operators] analyses the model on every tensor of its
    inputs: whatever the keys of the inputs, the analysis is given the tensor
    leaves of the whole inputs, in flattening order, the other leaves being
    dropped; no [ValueError] is raised for them. *)
Theorem flop_count_uses_tensor_leaves (Counts : Type) (giga : Counts -> Counts)
    (by_operator : bool * nnModule -> list pyobj -> result Counts * (bool * nnModule))
    (model0 : nnModule) (inputs0 : pyobj) :
  wf inputs0 = true -> str_keyed inputs0 = true ->
  flop_count_operators giga by_operator model0 inputs0
  = (let steps := unwrap 0 (eval model0) in
     let '(ret, (_, inner)) :=
       by_operator (true, deref steps (eval model0))
                   (filter is_tensor (leaves inputs0)) in
     let m2 := update_at steps (fun _ => inner) (eval model0) in
     match ret with
     | Raise e => (Raise e, m2)
     | Ok r => (Ok (giga r), train (training model0) m2)
     end).
Proof.
  intros Hwf Hstr. apply wf_as_tuple in Hwf. apply str_keyed_as_tuple in Hstr.
  rewrite str_keyed_has_nonstr in Hstr. apply negb_true_iff in Hstr.
  destruct (str_keyed_flattens _ Hstr) as ([flat schema] & Hflat).
  pose proof (flatten_leaves_gen _ Hwf Hflat) as Hl. rewrite leaves_as_tuple in Hl.
  destruct (init_allowing (eval model0) 0 inputs0 Hflat) as (w & Hw & Hm & Ht & Hf).
  unfold flop_count_operators. rewrite Hw, Hm, Ht, Hf, Hl. reflexivity.
Qed.

Lemma flop_count_uses_tensor_leaves_witness :
  flop_count_operators (fun c : nat => c) (fun st xs => (Ok (length xs), st))
    (Plain true [])
    (PList [PDict [(KStr "image", PAtom (ATensor 1)); (KStr "width", PAtom (AInt 800));
                   (KStr "depth", PAtom (ATensor 2))]])
  = (Ok 2, Plain true []).
Proof.
  exact (@flop_count_uses_tensor_leaves nat (fun c => c)
           (fun st xs => (Ok (length xs), st)) (Plain true [])
           (PList [PDict [(KStr "image", PAtom (ATensor 1));
                          (KStr "width", PAtom (AInt 800));
                          (KStr "depth", PAtom (ATensor 2))]])
           eq_refl eq_refl).
Defined.

(** X13.  When [flop_count_operators] returns, every module of the model,
    not only the model itself, has the training flag the model had before
    the call: submodules that were in another mode are not put back. *)
Theorem flop_count_sets_every_flag (Counts : Type) (giga : Counts -> Counts)
    (by_operator : bool * nnModule -> list pyobj -> result Counts * (bool * nnModule))
    (model0 model1 : nnModule) (inputs0 : pyobj) (ret : Counts) :
  flop_count_operators giga by_operator model0 inputs0 = (Ok ret, model1) ->
  all_training (training model0) model1 = true.
Proof.
  unfold flop_count_operators. intros H.
  destruct (TracingAdapter_init (eval model0) 0 inputs0 true) as [w|e];
    [|discriminate].
  destruct (by_operator _ _) as [[r|e] [t inner]]; [|discriminate].
  injection H as _ <-. apply all_training_train.
Qed.

Lemma flop_count_sets_every_flag_witness :
  all_training (training (Plain true [Plain false []])) (Plain true [Plain true []])
  = true.
Proof.
  apply (@flop_count_sets_every_flag nat (fun c => c) (fun st _ => (Ok 0, st))
           (Plain true [Plain false []]) (Plain true [Plain true []])
           (PList [PDict [(KStr "image", PAtom (ATensor 0))]]) 0).
  reflexivity.
Defined.

(** X14.  For a model wrapped in [DataParallel], [_wrapper_count_operators]
    leaves the wrapper untouched and, when it returns, has given the wrapped
    module the training flag of the wrapper, whatever the flag of the wrapped
    module was. *)
Theorem wrapped_module_takes_outer_flag (Counts : Type)
    (flop_count activation_count :
       bool * nnModule -> list pyobj -> result Counts * (bool * nnModule))
    (t : bool) (inner model1 : nnModule) (inputs0 : list pyobj) (mode : string)
    (ret : Counts) :
  _wrapper_count_operators flop_count activation_count (DataParallel t inner)
                           inputs0 mode = (Ok ret, model1) ->
  exists inner', model1 = DataParallel t inner' /\ training inner' = t.
Proof.
  unfold _wrapper_count_operators. intros H.
  destruct (negb (length inputs0 =? 1)); [discriminate|].
  destruct (image_of inputs0) as [tensor_input|e]; [|discriminate].
  destruct (TracingAdapter_init _ (unwrap 0 (DataParallel t inner)) _ false)
    as [w|e] eqn:Hw; [|discriminate].
  apply TracingAdapter_init_model in Hw.
  destruct (if String.eqb mode FLOPS_MODE then Some flop_count
            else if String.eqb mode ACTIVATIONS_MODE then Some activation_count
            else None) as [count|]; [|discriminate].
  destruct (count _ _) as [[r|e] [t' inner']]; [|discriminate].
  injection H as _ <-. rewrite Hw. clear Hw.
  unfold unwrap at 2. simpl deref. simpl is_parallel. cbv iota.
  unfold unwrap. simpl deref.
  destruct (is_parallel inner); simpl; eexists; (split; [reflexivity|]);
    apply training_train.
Qed.

Lemma wrapped_module_takes_outer_flag_witness :
  exists inner',
    DataParallel true (Plain true [Plain true []]) = DataParallel true inner'
    /\ training inner' = true.
Proof.
  apply (@wrapped_module_takes_outer_flag nat
           (fun st _ => (Ok 0, st)) (fun st _ => (Ok 0, st))
           true (Plain false [Plain true []])
           (DataParallel true (Plain true [Plain true []]))
           [PDict [(KStr "image", PAtom (ATensor 0))]] ACTIVATIONS_MODE 0).
  reflexivity.
Defined.

(** X15.  What [_wrapper_count_operators] refuses, it refuses before it
    touches the model: a batch that is not of size one raises
    [AssertionError], a mapping without the key "image" raises [KeyError],
    an image with a leaf that is not a tensor raises [ValueError], and in
    each case the model is as it was. *)
Theorem wrapper_count_refusals (Counts : Type)
    (flop_count activation_count :
       bool * nnModule -> list pyobj -> result Counts * (bool * nnModule))
    (model0 : nnModule) (mode : string) :
  (forall inputs0, length inputs0 <> 1 ->
     _wrapper_count_operators flop_count activation_count model0 inputs0 mode
     = (Raise AssertionError, model0))
  /\ (forall d, ~ In (KStr "image") (map fst d) ->
        _wrapper_count_operators flop_count activation_count model0 [PDict d] mode
        = (Raise KeyError, model0))
  /\ (forall d image,
        getitem d (KStr "image") = Ok image ->
        wf image = true -> str_keyed image = true ->
        existsb (fun x => negb (is_tensor x)) (leaves image) = true ->
        _wrapper_count_operators flop_count activation_count model0 [PDict d] mode
        = (Raise ValueError, model0)).
Proof.
  split; [|split].
  - intros inputs0 Hlen. unfold _wrapper_count_operators.
    apply Nat.eqb_neq in Hlen. rewrite Hlen. reflexivity.
  - intros d Hn. unfold _wrapper_count_operators. simpl.
    destruct (getitem d (KStr "image")) as [v|e] eqn:E.
    + exfalso. apply Hn. apply getitem_in in E.
      apply in_map_iff. exists (KStr "image", v). auto.
    + apply getitem_raise in E as [-> _]. reflexivity.
  - intros d image Hget Hwf Hstr Hex. unfold _wrapper_count_operators.
    simpl length. simpl negb. cbv iota. simpl image_of. rewrite Hget.
    set (inputs1 := PList [PDict [(KStr "image", image)]]).
    assert (Hwf1 : wf (as_tuple inputs1) = true) by (simpl; rewrite Hwf; reflexivity).
    assert (Hstr1 : str_keyed (as_tuple inputs1) = true)
      by (simpl; rewrite Hstr; reflexivity).
    rewrite str_keyed_has_nonstr in Hstr1. apply negb_true_iff in Hstr1.
    destruct (str_keyed_flattens _ Hstr1) as ([flat schema] & Hflat).
    pose proof (flatten_leaves_gen _ Hwf1 Hflat) as Hl.
    rewrite (init_strict_raises _ _ _ Hflat); [reflexivity|].
    rewrite Hl. simpl. rewrite !app_nil_r. exact Hex.
Qed.

(** ** The statistics of [do_flop] and [do_activation] *)

Module StatsFacts.
Import Stats.

Section Facts.
Variable Num : Type.
Variable zero : Num.
Variable add : Num -> Num -> Num.
Variable positive : Num -> bool.
Variable div : Num -> nat -> Num.
Variable giga : Num -> Num.
Variable Data : Type.
Variable count_of : Data -> result (Counter Num).
Variable analyse : Data -> result (Counter Num * Num).

(** The index the loop variable is left with. *)
Lemma last_index (n : nat) (data : list Data) (a : nat) (idx : option nat) :
  fold_left (fun _ (p : nat * Data) => Some (fst p)) (combine (seq a n) data) idx
  = match Nat.min n (length data) with
    | 0 => idx
    | S k => Some (a + k)
    end.
Proof.
  revert data a idx. induction n as [|n IH]; intros data a idx; simpl; [reflexivity|].
  destruct data as [|d data]; simpl; [reflexivity|].
  rewrite IH. destruct (Nat.min n (length data)); f_equal; lia.
Qed.

Lemma combine_firstn {A B : Type} (l : list A) (l' : list B) :
  map snd (combine l l') = firstn (length l) l'.
Proof.
  revert l'. induction l as [|a l IH]; intros [|b l']; simpl; try reflexivity.
  f_equal. apply IH.
Qed.

Lemma activation_loop_done (pairs : list (nat * Data)) (cs : list (Counter Num)) :
  Forall2 (fun d c => count_of d = Ok c) (map snd pairs) cs ->
  forall idx counts totals,
    activation_loop zero add positive count_of pairs idx counts totals
    = Done (fold_left (fun _ (p : nat * Data) => Some (fst p)) pairs idx,
            fold_left (iadd zero add positive) cs counts,
            totals ++ map (total zero add) cs).
Proof.
  revert cs. induction pairs as [|[i d] pairs IH]; intros cs H idx counts totals;
    inversion H as [|? c ? cs' Hc Hrest]; subst; simpl.
  - rewrite app_nil_r. reflexivity.
  - rewrite Hc, (IH cs' Hrest), <- app_assoc. reflexivity.
Qed.

Lemma flop_loop_done (pairs : list (nat * Data)) (rs : list (Counter Num * Num)) :
  Forall2 (fun d r => analyse d = Ok r) (map snd pairs) rs ->
  forall idx counts totals,
    flop_loop zero add positive analyse pairs idx counts totals
    = Done (fold_left (fun _ (p : nat * Data) => Some (fst p)) pairs idx,
            fold_left (iadd zero add positive) (map fst rs) counts,
            totals ++ map snd rs).
Proof.
  revert rs. induction pairs as [|[i d] pairs IH]; intros rs H idx counts totals;
    inversion H as [|? r ? rs' Hr Hrest]; subst; simpl.
  - rewrite app_nil_r. reflexivity.
  - rewrite Hr. destruct r as [c t]. rewrite (IH rs' Hrest), <- app_assoc.
    reflexivity.
Qed.

Lemma activation_report_positive (n : nat) (counts : Counter Num) :
  activation_report div (Some (S n)) counts
  = Done (map (fun kv => (fst kv, div (snd kv) (S n))) counts).
Proof.
  induction counts as [|[k v] counts IH]; simpl; [reflexivity|].
  rewrite IH. reflexivity.
Qed.

Lemma numbered_snd (num_inputs : Z) (data_loader : list Data) :
  map snd (numbered num_inputs data_loader) = processed num_inputs data_loader.
Proof.
  unfold numbered, processed. rewrite combine_firstn, length_seq. reflexivity.
Qed.

Lemma processed_length (num_inputs : Z) (data_loader : list Data) :
  length (processed num_inputs data_loader)
  = Nat.min (Z.to_nat num_inputs) (length data_loader).
Proof. unfold processed. apply length_firstn. Qed.

Lemma do_activation_spec (num_inputs : Z) (data_loader : list Data)
    (cs : list (Counter Num)) :
  Forall2 (fun d c => count_of d = Ok c) (processed num_inputs data_loader) cs ->
  do_activation zero add positive div count_of num_inputs data_loader
  = and_then
      (activation_report div
         (match length cs with 0 => None | S k => Some k end)
         (fold_left (iadd zero add positive) cs []))
      (fun report => Done (report, map (total zero add) cs)).
Proof.
  intros H. unfold do_activation.
  rewrite activation_loop_done with (cs := cs) by (rewrite numbered_snd; exact H).
  simpl and_then. unfold numbered. rewrite last_index.
  apply Forall2_length in H. rewrite processed_length in H. rewrite H.
  destruct (length cs); reflexivity.
Qed.

Lemma do_flop_spec (num_inputs : Z) (data_loader : list Data)
    (rs : list (Counter Num * Num)) :
  Forall2 (fun d r => analyse d = Ok r) (processed num_inputs data_loader) rs ->
  do_flop zero add positive div giga analyse num_inputs data_loader
  = match length rs with
    | 0 => Fail UnboundLocalError
    | S k =>
        Done (map (fun kv => (fst kv, giga (div (snd kv) (S k))))
                  (fold_left (iadd zero add positive) (map fst rs) []),
              map snd rs)
    end.
Proof.
  intros H. unfold do_flop.
  rewrite flop_loop_done with (rs := rs) by (rewrite numbered_snd; exact H).
  simpl and_then. unfold numbered. rewrite last_index.
  apply Forall2_length in H. rewrite processed_length in H. rewrite H.
  destruct (length rs) as [|k]; [reflexivity|].
  simpl. replace (k + 1) with (S k) by lia. reflexivity.
Qed.

(** X16.  [do_activation] on a single input fails: when exactly one input is
    processed and its counts leave the counter non-empty, the division by the
    loop index, which is [0], raises [ZeroDivisionError]. *)
Theorem do_activation_single_input (num_inputs : Z) (data_loader : list Data)
    (d : Data) (count : Counter Num) :
  processed num_inputs data_loader = [d] ->
  count_of d = Ok count ->
  iadd zero add positive [] count <> [] ->
  do_activation zero add positive div count_of num_inputs data_loader
  = Fail ZeroDivisionError.
Proof.
  intros Hp Hc Hne.
  rewrite (@do_activation_spec num_inputs data_loader [count])
    by (rewrite Hp; constructor; [exact Hc | constructor]).
  simpl. destruct (iadd zero add positive [] count) as [|[k v] rest];
    [congruence | reflexivity].
Qed.

(** X17.  [do_activation] divides by the last index, not by the number of
    inputs: when [k + 2] inputs are processed, every accumulated count is
    divided by [k + 1]. *)
Theorem do_activation_divides_by_last_index (num_inputs : Z)
    (data_loader : list Data) (cs : list (Counter Num)) (k : nat) :
  Forall2 (fun d c => count_of d = Ok c) (processed num_inputs data_loader) cs ->
  length cs = S (S k) ->
  do_activation zero add positive div count_of num_inputs data_loader
  = Done (map (fun kv => (fst kv, div (snd kv) (S k)))
              (fold_left (iadd zero add positive) cs []),
          map (total zero add) cs).
Proof.
  intros H Hlen. rewrite (do_activation_spec _ _ H), Hlen, activation_report_positive.
  reflexivity.
Qed.

(** X18.  [do_flop] divides by the number of inputs: when [k + 1] inputs are
    processed, every accumulated count is divided by [k + 1], then by
    [1e9]. *)
Theorem do_flop_divides_by_count (num_inputs : Z) (data_loader : list Data)
    (rs : list (Counter Num * Num)) (k : nat) :
  Forall2 (fun d r => analyse d = Ok r) (processed num_inputs data_loader) rs ->
  length rs = S k ->
  do_flop zero add positive div giga analyse num_inputs data_loader
  = Done (map (fun kv => (fst kv, giga (div (snd kv) (S k))))
              (fold_left (iadd zero add positive) (map fst rs) []),
          map snd rs).
Proof.
  intros H Hlen. rewrite (do_flop_spec _ _ H), Hlen. reflexivity.
Qed.

(** X19.  With no input to process ([--num-inputs] at most [0], or an empty
    data loader), [do_flop] raises [UnboundLocalError], its table needing the
    last analysis, while [do_activation] returns an empty report. *)
Theorem no_input_statistics (num_inputs : Z) (data_loader : list Data) :
  processed num_inputs data_loader = [] ->
  do_flop zero add positive div giga analyse num_inputs data_loader
  = Fail UnboundLocalError
  /\ do_activation zero add positive div count_of num_inputs data_loader
     = Done ([], []).
Proof.
  intros Hp. split.
  - rewrite (@do_flop_spec num_inputs data_loader []) by (rewrite Hp; constructor).
    reflexivity.
  - rewrite (@do_activation_spec num_inputs data_loader [])
      by (rewrite Hp; constructor).
    reflexivity.
Qed.

End Facts.

Lemma do_activation_single_input_witness :
  do_activation 0 Nat.add (fun n => 0 <? n) Nat.div
                (fun d : nat => Ok [("conv"%string, d)]) 1 [5; 6]
  = Fail ZeroDivisionError.
Proof.
  apply (@do_activation_single_input nat 0 Nat.add (fun n => 0 <? n) Nat.div nat
           (fun d => Ok [("conv"%string, d)]) 1 [5; 6] 5 [("conv"%string, 5)]).
  - reflexivity.
  - reflexivity.
  - discriminate.
Defined.

Lemma do_activation_divides_by_last_index_witness :
  do_activation 0 Nat.add (fun n => 0 <? n) Nat.div
                (fun d : nat => Ok [("conv"%string, d)]) 100 [4; 6]
  = Done ([("conv"%string, 10)], [4; 6]).
Proof.
  exact (@do_activation_divides_by_last_index nat 0 Nat.add (fun n => 0 <? n)
           Nat.div nat (fun d => Ok [("conv"%string, d)]) 100 [4; 6]
           [[("conv"%string, 4)]; [("conv"%string, 6)]] 0
           (Forall2_cons _ _ eq_refl (Forall2_cons _ _ eq_refl (Forall2_nil _)))
           eq_refl).
Defined.

Lemma do_flop_divides_by_count_witness :
  do_flop 0 Nat.add (fun n => 0 <? n) Nat.div (fun v => v)
          (fun d : nat => Ok ([("conv"%string, d)], d)) 100 [4; 6]
  = Done ([("conv"%string, 5)], [4; 6]).
Proof.
  exact (@do_flop_divides_by_count nat 0 Nat.add (fun n => 0 <? n) Nat.div
           (fun v => v) nat (fun d => Ok ([("conv"%string, d)], d)) 100 [4; 6]
           [([("conv"%string, 4)], 4); ([("conv"%string, 6)], 6)] 1
           (Forall2_cons _ _ eq_refl (Forall2_cons _ _ eq_refl (Forall2_nil _)))
           eq_refl).
Defined.

Lemma no_input_statistics_witness :
  do_flop 0 Nat.add (fun n => 0 <? n) Nat.div (fun v => v)
          (fun d : nat => Ok ([("conv"%string, d)], d)) 0 [4; 6]
  = Fail UnboundLocalError
  /\ do_activation 0 Nat.add (fun n => 0 <? n) Nat.div
                   (fun d : nat => Ok [("conv"%string, d)]) 0 [4; 6]
     = Done ([], []).
Proof.
  apply (@no_input_statistics nat 0 Nat.add (fun n => 0 <? n) Nat.div (fun v => v)
           nat (fun d => Ok [("conv"%string, d)])
           (fun d => Ok ([("conv"%string, d)], d)) 0 [4; 6]).
  reflexivity.
Defined.

End StatsFacts.

(** ** The task loop, whatever the functions do *)

Module AnalysisLoop.
Import Analysis.

Section Loop.
Variables (Cfg World : Type).
Variable body : task_fn -> Cfg -> World -> result unit * World.

Lemma task_loop_prefix (names : list string) (cfg : Cfg) :
  Forall (fun n => existsb (String.eqb n) choices = true) names ->
  forall st : state Cfg World,
  exists calls,
    snd (snd (task_loop body names cfg st)) = snd st ++ calls
    /\ Forall2 (fun n ev => exists f, named_fn n = Some f /\ ev = Invoke f cfg)
               (firstn (length calls) names) calls.
Proof.
  intros Hall. induction Hall as [|n names Hn _ IH]; intros [w tr];
    cbn [task_loop snd].
  - exists []. rewrite app_nil_r. split; [reflexivity | constructor].
  - destruct (AnalysisFacts.choice_dispatch _ Hn) as (f & -> & Hf).
    unfold invoke. cbn [fst snd].
    destruct (body f cfg w) as [[[]|e] w1].
    + destruct (IH (w1, tr ++ [Invoke f cfg])) as (calls & Hcalls & H2).
      exists (Invoke f cfg :: calls). cbn [snd] in Hcalls.
      rewrite Hcalls, <- app_assoc. split; [reflexivity|].
      simpl. constructor; [eauto | exact H2].
    + exists [Invoke f cfg]. split; [reflexivity|].
      simpl. constructor; [eauto | constructor].
Qed.

Lemma task_loop_through (pre : list string) (cfg : Cfg) :
  Forall (fun n => existsb (String.eqb n) choices = true) pre ->
  (forall name g, In name pre -> named_fn name = Some g ->
                  forall c w, fst (body g c w) = Ok tt) ->
  forall st : state Cfg World,
  exists w' calls,
    length calls = length pre
    /\ forall rest,
         task_loop body (pre ++ rest) cfg st
         = task_loop body rest cfg (w', snd st ++ calls).
Proof.
  intros Hall. induction Hall as [|n pre Hn _ IH]; intros Hret [w tr].
  - exists w, []. split; [reflexivity|]. intros rest. simpl. rewrite app_nil_r.
    reflexivity.
  - destruct (AnalysisFacts.choice_dispatch _ Hn) as (f & Hget & Hf).
    pose proof (Hret n f (or_introl eq_refl) Hf cfg w) as Hok.
    destruct (body f cfg w) as [r w1] eqn:Hb. simpl in Hok. subst r.
    destruct (IH (fun name g Hin => Hret name g (or_intror Hin))
                 (w1, tr ++ [Invoke f cfg])) as (w' & calls & Hlen & Hloop).
    exists w', (Invoke f cfg :: calls). split; [simpl; lia|].
    intros rest. cbn [app task_loop]. rewrite Hget. unfold invoke. cbn [fst snd].
    rewrite Hb, Hloop. cbn [snd]. rewrite <- app_assoc. reflexivity.
Qed.
End Loop.

End AnalysisLoop.




(** ** Schemas written by hand *)

Lemma _split_length (values : list pyobj) (sizes : list nat) pieces :
  _split values sizes = Ok pieces -> length pieces = length sizes.
Proof.
  unfold _split.
  destruct (negb (length sizes =? 0) && negb (length values =? sum sizes));
    [discriminate|].
  intros H. injection H as <-. rewrite length_map, length_seq. reflexivity.
Qed.

(** X22.  A schema whose [schemas] and [sizes] differ in length is refused:
    when the values pass the length check of [_split], calling a
    [ListSchema], a [TupleSchema] or a [DictSchema] with as many sizes as it
    has not schemas raises [ValueError]. *)
Theorem schema_call_mismatched_lists (schemas : list Schema) (sizes : list nat)
    (keys : list string) (values : list pyobj) :
  sizes = [] \/ length values = sum sizes ->
  length schemas <> length sizes ->
  Schema_call (ListSchema schemas sizes) values = Raise ValueError
  /\ Schema_call (TupleSchema schemas sizes) values = Raise ValueError
  /\ Schema_call (DictSchema schemas sizes keys) values = Raise ValueError.
Proof.
  intros Hok Hneq.
  assert (H : ListSchema_call Schema_call schemas sizes values = Raise ValueError).
  { unfold ListSchema_call.
    assert (Hs : exists pieces, _split values sizes = Ok pieces).
    { destruct (split_checks_length values sizes) as (H0 & _ & H1).
      destruct Hok as [Hnil|Hlen]; [eauto|].
      destruct (H1 Hlen) as (pieces & Hp & _). eauto. }
    destruct Hs as (pieces & Hp). rewrite Hp. simpl bind.
    apply _split_length in Hp. rewrite Hp.
    replace (length sizes =? length schemas) with false; [reflexivity|].
    symmetry. apply Nat.eqb_neq. congruence. }
  simpl Schema_call. rewrite H. repeat split.
Qed.

Lemma schema_call_mismatched_lists_witness :
  Schema_call (ListSchema [IdentitySchema] [1; 1])
              [PAtom (ATensor 0); PAtom (ATensor 1)] = Raise ValueError
  /\ Schema_call (TupleSchema [IdentitySchema] [1; 1])
                 [PAtom (ATensor 0); PAtom (ATensor 1)] = Raise ValueError
  /\ Schema_call (DictSchema [IdentitySchema] [1; 1] ["a"%string])
                 [PAtom (ATensor 0); PAtom (ATensor 1)] = Raise ValueError.
Proof.
  apply schema_call_mismatched_lists; [right; reflexivity | discriminate].
Defined.
